(** * ReactNativeLLM: the context retrieval engine

    A shallow embedding of [ContextProcessor], [ContextFileManager] and
    [MCPContextManager] (src/services) together with the JavaScript string
    and array built-ins they call, and the properties of the engine.

    Conventions of the embedding.
    - A JavaScript string is a sequence of UTF-16 code units; the model
      covers the code units below 256, so a string is a Stdlib [string]
      and a code unit an [ascii].  On that range the whitespace class of
      [\s] and [trim] is TAB, LF, VT, FF, CR, SPACE and NBSP, and
      [toLowerCase] moves A-Z and the Latin-1 capitals.
    - Relevance scores are the exact rationals [c / n] with [n <= 20];
      on these the comparisons made by the code on doubles agree with
      the exact ones.
    - [Array.prototype.sort] is stable (ES2019); with a comparator that
      orders by one numeric key every stable sort returns the same array,
      modelled here by insertion.
    - [uuid()] reads the process's random source: the source is a stream
      of ids and the number of draws made so far is threaded as state.
    - Calls that can fail (the RNFS file operations) return a [Result];
      [try]/[catch] is the handler combinator of the monad [M]. *)

From Stdlib Require Import String Ascii List Arith Bool Lia NArith ZArith QArith.
From Stdlib Require Import Permutation.
Import ListNotations.

Local Open Scope list_scope.
Local Open Scope string_scope.
Local Open Scope nat_scope.

(* ===================================================================== *)
(** * JavaScript built-ins used by the engine *)
(* ===================================================================== *)

Module JS.

Definition code (c : ascii) : N := N_of_ascii c.

Definition in_range (lo hi : N) (c : ascii) : bool :=
  ((lo <=? code c) && (code c <=? hi))%N.

(** The class [\s], which is also what [trim] strips. *)
Definition is_space (c : ascii) : bool :=
  in_range 9 13 c || (code c =? 32)%N || (code c =? 160)%N.

(** The class [\w]: [A-Za-z0-9_]. *)
Definition is_word (c : ascii) : bool :=
  in_range 65 90 c || in_range 97 122 c || in_range 48 57 c || (code c =? 95)%N.

Definition lower (c : ascii) : ascii :=
  if in_range 65 90 c || in_range 192 214 c || in_range 216 222 c
  then ascii_of_N (code c + 32)
  else c.

Fixpoint map_string (f : ascii -> ascii) (s : string) : string :=
  match s with
  | EmptyString => EmptyString
  | String c s' => String (f c) (map_string f s')
  end.

Definition toLowerCase (s : string) : string := map_string lower s.

Definition is_empty (s : string) : bool :=
  match s with EmptyString => true | String _ _ => false end.

Fixpoint trimStart (s : string) : string :=
  match s with
  | EmptyString => EmptyString
  | String c s' => if is_space c then trimStart s' else s
  end.

Fixpoint trimEnd (s : string) : string :=
  match s with
  | EmptyString => EmptyString
  | String c s' =>
      let r := trimEnd s' in
      if is_space c && is_empty r then EmptyString else String c r
  end.

Definition trim (s : string) : string := trimEnd (trimStart s).

(** [s.split(sep)] for a one-character separator string. *)
Fixpoint split_char (sep : ascii) (s : string) : list string :=
  match s with
  | EmptyString => [EmptyString]
  | String c s' =>
      if Ascii.eqb c sep then EmptyString :: split_char sep s'
      else match split_char sep s' with
           | w :: r => String c w :: r
           | [] => [String c EmptyString]
           end
  end.

(** [s.split(/\s+/)]: the pieces between the maximal whitespace runs; a
    leading or trailing run leaves an empty first or last piece. *)
Fixpoint split_ws (s : string) : list string :=
  match s with
  | EmptyString => [EmptyString]
  | String c s' =>
      if is_space c then
        match s' with
        | String d _ => if is_space d then split_ws s' else EmptyString :: split_ws s'
        | EmptyString => EmptyString :: split_ws s'
        end
      else match split_ws s' with
           | w :: r => String c w :: r
           | [] => [String c EmptyString]
           end
  end.

(** [s.replace(/\s+/g, ' ')]. *)
Fixpoint collapse_ws (s : string) : string :=
  match s with
  | EmptyString => EmptyString
  | String c s' =>
      if is_space c then
        match s' with
        | String d _ => if is_space d then collapse_ws s' else String " " (collapse_ws s')
        | EmptyString => String " " EmptyString
        end
      else String c (collapse_ws s')
  end.

(** [words.join(sep)]. *)
Definition join (sep : string) (ws : list string) : string := String.concat sep ws.

(** [a.slice(i, j)] for [0 <= i <= j]. *)
Definition slice {A : Type} (i j : nat) (l : list A) : list A :=
  firstn (j - i) (skipn i l).

(** [s.includes(sub)]. *)
Fixpoint includes (s sub : string) : bool :=
  String.prefix sub s ||
  match s with
  | EmptyString => false
  | String _ s' => includes s' sub
  end.

(** [arr.includes(x)] on an array of strings. *)
Definition array_includes (l : list string) (x : string) : bool :=
  existsb (String.eqb x) l.

(** [[...new Set(words)]]: first occurrences, in insertion order. *)
Fixpoint set_insert_all (seen : list string) (ws : list string) : list string :=
  match ws with
  | [] => seen
  | w :: r => set_insert_all (if array_includes seen w then seen else (seen ++ [w])%list) r
  end.

Definition unique (ws : list string) : list string := set_insert_all [] ws.

(** Line feed, and the blank line used between rendered chunks. *)
Definition LF : ascii := ascii_of_N 10.
Definition nl : string := String LF EmptyString.

End JS.

(* ===================================================================== *)
(** * Types (src/types/ContextTypes.ts) and constants (ContextConfig.ts) *)
(* ===================================================================== *)

(** A [Date] is its time value in milliseconds. *)
Definition Date : Type := N.

Record ContextChunk : Type := mkChunk {
  id : string;
  content : string;
  keywords : list string;
  section : option string;          (* [section?: string] *)
  relevanceScore : option Q         (* [relevanceScore?: number] *)
}.

Record ContextDocument : Type := mkDocument {
  doc_content : string;
  lastModified : Date;
  size : N;
  chunks : list ContextChunk;
  isValid : bool
}.

Module CONTEXT_CONSTANTS.
Definition CHUNK_SIZE : nat := 500.
Definition CHUNK_OVERLAP : nat := 50.
Definition MIN_KEYWORD_LENGTH : nat := 3.
Definition MAX_CHUNKS_PER_QUERY : nat := 5.
End CONTEXT_CONSTANTS.

(** The random source read by [uuid()]: the n-th draw of the process. *)
Definition uuid_source : Type := nat -> string.

(* ===================================================================== *)
(** * ContextProcessor *)
(* ===================================================================== *)

Module ContextProcessor.
Import JS.

(** The anonymous [{title, content}] object of [splitByMarkdownHeaders]. *)
Record MdSection : Type := mkSection {
  title : string;
  sec_content : string
}.

(** ** splitByMarkdownHeaders *)

(** Leading ['#'] characters of a line and what follows them. *)
Fixpoint span_hashes (s : string) : nat * string :=
  match s with
  | String c s' =>
      if Ascii.eqb c "#" then let (k, r) := span_hashes s' in (S k, r) else (0, s)
  | EmptyString => (0, s)
  end.

(** [line.match(/^#{1,6}\s+/)]: on a match, what is left of the line
    behind the matched prefix. *)
Definition match_header (line : string) : option string :=
  let (k, rest) := span_hashes line in
  if (1 <=? k) && (k <=? 6) then
    match rest with
    | String c _ => if is_space c then Some (trimStart rest) else None
    | EmptyString => None
    end
  else None.

Definition is_header (line : string) : bool :=
  match match_header line with Some _ => true | None => false end.

(** [line.replace(/^#{1,6}\s+/, '').trim()]. *)
Definition header_title (line : string) : string :=
  match match_header line with
  | Some rest => trim rest
  | None => trim line
  end.

(** One iteration of the [for (const line of lines)] loop on the pair
    [(sections, currentSection)]. *)
Definition header_step (st : list MdSection * MdSection) (line : string)
  : list MdSection * MdSection :=
  let (sections, currentSection) := st in
  if is_header line then
    ((if is_empty (trim (sec_content currentSection)) then sections
      else (sections ++ [currentSection])%list),
     {| title := header_title line; sec_content := line ++ nl |})
  else
    (sections,
     {| title := title currentSection;
        sec_content := sec_content currentSection ++ line ++ nl |}).

Definition splitByMarkdownHeaders (content : string) : list MdSection :=
  let lines := split_char LF content in
  let (sections, currentSection) :=
    fold_left header_step lines ([], {| title := ""; sec_content := "" |}) in
  let sections :=
    if is_empty (trim (sec_content currentSection)) then sections
    else (sections ++ [currentSection])%list in
  match sections with
  | [] => [{| title := "Content"; sec_content := content |}]
  | _ => sections
  end.

(** ** extractKeywords *)

Definition is_markdown_char (c : ascii) : bool :=
  existsb (Ascii.eqb c) ["#"; "*"; "`"; "_"; "["; "]"; "("; ")"]%char.

Definition stopWords : list string :=
  ["the"; "a"; "an"; "and"; "or"; "but"; "in"; "on"; "at"; "to"; "for"; "of"; "with"; "by";
   "from"; "up"; "about"; "into"; "through"; "during"; "before"; "after"; "above"; "below";
   "is"; "are"; "was"; "were"; "be"; "been"; "being"; "have"; "has"; "had"; "do"; "does"; "did";
   "will"; "would"; "could"; "should"; "may"; "might"; "must"; "can"; "this"; "that"; "these"; "those"].

Definition isStopWord (word : string) : bool :=
  array_includes stopWords (toLowerCase word).

Definition cleanContent (content : string) : string :=
  trim
    (collapse_ws
       (map_string (fun c => if is_word c || is_space c then c else " "%char)
          (toLowerCase
             (map_string (fun c => if is_markdown_char c then " "%char else c) content)))).

Definition extractKeywords (content : string) : list string :=
  let words :=
    filter (fun word =>
              (CONTEXT_CONSTANTS.MIN_KEYWORD_LENGTH <=? String.length word)
              && negb (isStopWord word))
           (split_char " " (cleanContent content)) in
  let uniqueWords := unique words in
  slice 0 20 uniqueWords.

(** ** createChunksFromSection *)

(** The [for (let i = 0; i < words.length; i += chunkSize - overlap)] loop
    from index [i], with [n] ids drawn so far; the fuel bounds the number
    of iterations. *)
Fixpoint chunk_loop (fuel : nat) (rnd : uuid_source) (sec_title : string)
    (words : list string) (chunkSize overlap : nat) (i n : nat)
  : list ContextChunk * nat :=
  match fuel with
  | 0 => ([], n)
  | S fuel' =>
      if i <? length words then
        let chunkWords := slice i (i + chunkSize) words in
        let chunkContent := trim (join " " chunkWords) in
        if 0 <? String.length chunkContent then
          let chunk :=
            {| id := rnd n;
               content := chunkContent;
               keywords := extractKeywords chunkContent;
               section := if is_empty sec_title then None else Some sec_title;
               relevanceScore := None |} in
          let (rest, n') :=
            chunk_loop fuel' rnd sec_title words chunkSize overlap
                       (i + (chunkSize - overlap)) (S n) in
          (chunk :: rest, n')
        else
          chunk_loop fuel' rnd sec_title words chunkSize overlap
                     (i + (chunkSize - overlap)) n
      else ([], n)
  end.

(** Every iteration advances [i] by 450, so [words.length] iterations are
    never used up (lemma [chunk_loop_fuel]). *)
Definition createChunksFromSection (rnd : uuid_source) (sec : MdSection) (n : nat)
  : list ContextChunk * nat :=
  let words := split_ws (sec_content sec) in
  chunk_loop (length words) rnd (title sec) words
             CONTEXT_CONSTANTS.CHUNK_SIZE CONTEXT_CONSTANTS.CHUNK_OVERLAP 0 n.

(** ** processContextContent *)

(** [sections.forEach(section => chunks.push(...createChunksFromSection(section)))]. *)
Fixpoint process_sections (rnd : uuid_source) (sections : list MdSection) (n : nat)
  : list ContextChunk * nat :=
  match sections with
  | [] => ([], n)
  | sec :: rest =>
      let (cs, n1) := createChunksFromSection rnd sec n in
      let (cs', n2) := process_sections rnd rest n1 in
      ((cs ++ cs')%list, n2)
  end.

(** No operation inside the [try] raises, so the [catch] branches of
    [processContextContent], [extractKeywords] and [buildContextPrompt]
    are not reached and the functions are total. *)
Definition processContextContent (rnd : uuid_source) (content : string) (n : nat)
  : list ContextChunk * nat :=
  process_sections rnd (splitByMarkdownHeaders content) n.

(** ** calculateSimpleRelevanceScore *)

Definition keyword_matches (keyword chunkKeyword : string) : bool :=
  includes (toLowerCase chunkKeyword) (toLowerCase keyword)
  || includes (toLowerCase keyword) (toLowerCase chunkKeyword).

Definition commonKeywords (queryKeywords : list string) (chunk : ContextChunk)
  : list string :=
  filter (fun keyword => existsb (keyword_matches keyword) (keywords chunk)) queryKeywords.

Definition calculateSimpleRelevanceScore (queryKeywords : list string)
    (chunk : ContextChunk) : Q :=
  if (length queryKeywords =? 0) || (length (keywords chunk) =? 0) then 0%Q
  else Qred (Z.of_nat (length (commonKeywords queryKeywords chunk))
             # Pos.of_nat (length queryKeywords)).

Definition calculateRelevanceScore (query : string) (chunk : ContextChunk) : Q :=
  calculateSimpleRelevanceScore (extractKeywords query) chunk.

(** ** extractRelevantChunks *)

Definition Qltb (a b : Q) : bool :=
  (Qnum a * Zpos (Qden b) <? Qnum b * Zpos (Qden a))%Z.

(** [c.relevanceScore || 0]. *)
Definition score_or_zero (c : ContextChunk) : Q :=
  match relevanceScore c with Some s => s | None => 0%Q end.

(** [{ ...chunk, relevanceScore: score }]. *)
Definition with_score (score : Q) (chunk : ContextChunk) : ContextChunk :=
  {| id := id chunk; content := content chunk; keywords := keywords chunk;
     section := section chunk; relevanceScore := Some score |}.

(** [.sort((a, b) => (b.relevanceScore || 0) - (a.relevanceScore || 0))]:
    stable, descending by score. *)
Fixpoint insert_by_score (x : ContextChunk) (l : list ContextChunk) : list ContextChunk :=
  match l with
  | [] => [x]
  | y :: l' =>
      if Qltb (score_or_zero x) (score_or_zero y) then y :: insert_by_score x l'
      else x :: l
  end.

Definition sort_by_score (l : list ContextChunk) : list ContextChunk :=
  fold_right insert_by_score [] l.

Definition threshold : Q := 5 # 100.

Definition scoredChunks (userQuery : string) (chunks : list ContextChunk)
  : list ContextChunk :=
  let queryKeywords := extractKeywords userQuery in
  map (fun chunk => with_score (calculateSimpleRelevanceScore queryKeywords chunk) chunk)
      chunks.

(** The first assignment to [relevantChunks]. *)
Definition thresholdSelection (scored : list ContextChunk) : list ContextChunk :=
  slice 0 CONTEXT_CONSTANTS.MAX_CHUNKS_PER_QUERY
    (sort_by_score (filter (fun chunk => Qltb threshold (score_or_zero chunk)) scored)).

(** The assignment inside the fallback [if]. *)
Definition fallbackSelection (scored : list ContextChunk) : list ContextChunk :=
  slice 0 (Nat.min 2 CONTEXT_CONSTANTS.MAX_CHUNKS_PER_QUERY) (sort_by_score scored).

Definition takes_fallback (scored : list ContextChunk) : bool :=
  (length (thresholdSelection scored) =? 0) && (0 <? length scored).

Definition extractRelevantChunks (userQuery : string) (chunks : list ContextChunk)
  : list ContextChunk :=
  let scored := scoredChunks userQuery chunks in
  if takes_fallback scored then fallbackSelection scored
  else thresholdSelection scored.

(** ** buildContextPrompt *)

Definition preamble : string :=
  "[CONTEXT ACTIVE] You have access to the following information about the user:"
  ++ nl ++ nl.

Definition closing : string :=
  nl ++ nl ++
  "Please use this information to provide personalized and relevant responses. When the user asks about themselves, their projects, preferences, or anything related to the above information, incorporate these details naturally into your response. Start your response by acknowledging you have this context information.".

(** The template of one chunk; an absent or empty [section] is falsy. *)
Definition render_chunk (chunk : ContextChunk) : string :=
  let header :=
    match section chunk with
    | Some s => if is_empty s then "" else "**" ++ s ++ ":**" ++ nl
    | None => ""
    end in
  header ++ content chunk.

Definition buildContextPrompt (userQuery : string) (relevantChunks : list ContextChunk)
  : string :=
  if length relevantChunks =? 0 then ""
  else preamble ++ join (nl ++ nl) (map render_chunk relevantChunks) ++ closing.

End ContextProcessor.

(* ===================================================================== *)
(** * Effects: exceptions and mutable fields *)
(* ===================================================================== *)

Inductive Result (A : Type) : Type :=
| Ok (a : A)
| Throw (error : string).
Arguments Ok {A} a.
Arguments Throw {A} error.

(** A method body: it reads and writes the fields [S] of its object and
    either returns or throws; what it wrote before a throw stays written. *)
Definition M (S A : Type) : Type := S -> Result A * S.

Definition ret {S A : Type} (a : A) : M S A := fun s => (Ok a, s).

Definition bind {S A B : Type} (m : M S A) (k : A -> M S B) : M S B :=
  fun s =>
    match m s with
    | (Ok a, s') => k a s'
    | (Throw e, s') => (Throw e, s')
    end.

Definition throw {S A : Type} (e : string) : M S A := fun s => (Throw e, s).

(** [try { body } catch (error) { handler }]. *)
Definition try_catch {S A : Type} (body : M S A) (handler : string -> M S A) : M S A :=
  fun s =>
    match body s with
    | (Ok a, s') => (Ok a, s')
    | (Throw e, s') => handler e s'
    end.

(** The outcome of an awaited native call. *)
Definition await {S A : Type} (outcome : Result A) : M S A := fun s => (outcome, s).

Definition gets {S A : Type} (f : S -> A) : M S A := fun s => (Ok (f s), s).
Definition modify {S : Type} (f : S -> S) : M S unit := fun s => (Ok tt, f s).

Declare Scope js_scope.
Delimit Scope js_scope with js.
Notation "x <- m ;; k" := (bind m (fun x => k))
  (at level 61, m at next level, right associativity) : js_scope.
Notation "m ;; k" := (bind m (fun _ => k))
  (at level 61, right associativity) : js_scope.

(** What the three react-native-fs calls on the context file answer when a
    method makes them: a value, or a rejection. *)
Record StatResult : Type := mkStat {
  mtime : N;
  stat_size : N
}.

Record RNFS : Type := mkRNFS {
  RNFS_exists : Result bool;
  RNFS_readFile : Result string;
  RNFS_stat : Result StatResult
}.

(* ===================================================================== *)
(** * ContextFileManager *)
(* ===================================================================== *)

Module ContextFileManager.
Import JS.
Local Open Scope js_scope.

Definition checkContextFileExists {S : Type} (fs : RNFS) : M S bool :=
  try_catch (await (RNFS_exists fs))
            (fun _ => ret false).

Definition readContextFile {S : Type} (fs : RNFS) : M S (option ContextDocument) :=
  try_catch
    (fileExists <- checkContextFileExists fs ;;
     if negb fileExists then ret None
     else
       content <- await (RNFS_readFile fs) ;;
       stats <- await (RNFS_stat fs) ;;
       ret (Some {| doc_content := content;
                    lastModified := mtime stats;
                    size := stat_size stats;
                    chunks := [];
                    isValid := 0 <? String.length (trim content) |}))
    (fun _ => ret None).

(** [this.contextFilePath], built by the constructor from the native
    constant [RNFS.DocumentDirectoryPath]. *)
Definition contextFilePath (documentDirectoryPath : string) : string :=
  documentDirectoryPath ++ "/" ++ "context.md".

Record FileMetadata : Type := mkFileMetadata {
  metadata_size : N;
  metadata_lastModified : Date;
  metadata_path : string
}.

Definition getFileMetadata {S : Type} (documentDirectoryPath : string) (fs : RNFS)
  : M S (option FileMetadata) :=
  try_catch
    (exists_ <- checkContextFileExists fs ;;
     if negb exists_ then ret None
     else
       stats <- await (RNFS_stat fs) ;;
       ret (Some {| metadata_size := stat_size stats;
                    metadata_lastModified := mtime stats;
                    metadata_path := contextFilePath documentDirectoryPath |}))
    (fun _ => ret None).

End ContextFileManager.

(* ===================================================================== *)
(** * MCPContextManager *)
(* ===================================================================== *)

Module MCPContextManager.
Import JS.
Local Open Scope js_scope.

(** The private fields of the singleton. *)
Record Fields : Type := mkFields {
  contextDocument : option ContextDocument;
  lastFileCheck : option Date;
  isInitialized : bool
}.

(** The fields together with the number of ids drawn from the random
    source so far. *)
Definition State : Type := (Fields * nat)%type.

Definition initial : Fields :=
  {| contextDocument := None; lastFileCheck := None; isInitialized := false |}.

(** What one call finds outside the object: the file system's answers,
    the clock, and the random source. *)
Record Env : Type := mkEnv {
  fs : RNFS;
  now : Date;
  rnd : uuid_source
}.

Definition set_contextDocument (d : option ContextDocument) : M State unit :=
  modify (fun st : State =>
    ({| contextDocument := d;
        lastFileCheck := lastFileCheck (fst st);
        isInitialized := isInitialized (fst st) |}, snd st)).

Definition set_lastFileCheck (t : option Date) : M State unit :=
  modify (fun st : State =>
    ({| contextDocument := contextDocument (fst st);
        lastFileCheck := t;
        isInitialized := isInitialized (fst st) |}, snd st)).

Definition set_isInitialized (b : bool) : M State unit :=
  modify (fun st : State =>
    ({| contextDocument := contextDocument (fst st);
        lastFileCheck := lastFileCheck (fst st);
        isInitialized := b |}, snd st)).

(** [ContextProcessor.processContextContent], drawing its ids. *)
Definition processContextContent (env : Env) (content : string)
  : M State (list ContextChunk) :=
  fun st =>
    let (cs, n') := ContextProcessor.processContextContent (rnd env) content (snd st) in
    (Ok cs, (fst st, n')).

Definition refreshContext (env : Env) : M State unit :=
  try_catch
    (contextDoc <- ContextFileManager.readContextFile (fs env) ;;
     match contextDoc with
     | Some doc =>
         chunks <- processContextContent env (doc_content doc) ;;
         set_contextDocument
           (Some {| doc_content := doc_content doc;
                    lastModified := lastModified doc;
                    size := size doc;
                    chunks := chunks;
                    isValid := isValid doc |}) ;;
         set_lastFileCheck (Some (now env))
     | None => set_contextDocument None
     end)
    (fun _ => set_contextDocument None).

Definition initialize (env : Env) : M State unit :=
  try_catch
    (refreshContext env ;;
     set_isInitialized true)
    (fun _ => ret tt).

Definition isContextAvailable (this : Fields) : bool :=
  match contextDocument this with
  | Some doc => isValid doc && (0 <? length (chunks doc))
  | None => false
  end.

(** [this.contextDocument!.chunks]: reading a property of [null] throws. *)
Definition contextDocument_chunks : M State (list ContextChunk) :=
  fun st =>
    match contextDocument (fst st) with
    | Some doc => (Ok (chunks doc), st)
    | None => (Throw "TypeError", st)
    end.

Definition getContextForQuery (env : Env) (userQuery : string)
  : M State (option string) :=
  try_catch
    (initialized <- gets (fun st : State => isInitialized (fst st)) ;;
     (if negb initialized then initialize env else ret tt) ;;
     available <- gets (fun st : State => isContextAvailable (fst st)) ;;
     if negb available then ret None
     else
       chunks <- contextDocument_chunks ;;
       let relevantChunks := ContextProcessor.extractRelevantChunks userQuery chunks in
       if length relevantChunks =? 0 then ret None
       else
         let contextPrompt := ContextProcessor.buildContextPrompt userQuery relevantChunks in
         ret (Some contextPrompt))
    (fun _ => ret None).

Definition forceRefresh (env : Env) : M State bool :=
  try_catch
    (refreshContext env ;;
     gets (fun st : State => isContextAvailable (fst st)))
    (fun _ => ret false).

Definition cleanup : M State unit :=
  try_catch
    (set_contextDocument None ;;
     set_isInitialized false)
    (fun _ => ret tt).

(** The object [getContextStats] returns; the key [lastProcessed] is
    absent from the object of the unavailable branch. *)
Record ContextStats : Type := mkStats {
  stats_available : bool;
  stats_chunksCount : nat;
  stats_fileSize : N;
  stats_lastModified : option Date;
  stats_lastProcessed : option (option Date)
}.

Definition getContextStats (this : Fields) : Result ContextStats :=
  if negb (isContextAvailable this) then
    Ok {| stats_available := false;
          stats_chunksCount := 0;
          stats_fileSize := 0%N;
          stats_lastModified := None;
          stats_lastProcessed := None |}
  else
    match contextDocument this with
    | Some doc =>
        Ok {| stats_available := true;
              stats_chunksCount := length (chunks doc);
              stats_fileSize := size doc;
              stats_lastModified := Some (lastModified doc);
              stats_lastProcessed := Some (lastFileCheck this) |}
    | None => Throw "TypeError"   (* [this.contextDocument!] on [null] *)
    end.

(** The object [getContextMetadata] returns: the spread file metadata (no
    keys when it is [null]) and the three keys added to it. *)
Record ContextMetadata : Type := mkMetadata {
  meta_file : option ContextFileManager.FileMetadata;
  meta_chunksCount : nat;
  meta_lastProcessed : option Date;
  meta_isAvailable : bool
}.

Definition getContextMetadata (documentDirectoryPath : string) (env : Env)
  : M State (option ContextMetadata) :=
  try_catch
    (metadata <- ContextFileManager.getFileMetadata documentDirectoryPath (fs env) ;;
     this <- gets (fun st : State => fst st) ;;
     ret (Some {| meta_file := metadata;
                  meta_chunksCount :=
                    match contextDocument this with
                    | Some doc => length (chunks doc)
                    | None => 0
                    end;
                  meta_lastProcessed := lastFileCheck this;
                  meta_isAvailable := isContextAvailable this |}))
    (fun _ => ret None).

(** The public methods that write the fields. *)
Inductive Call : Type :=
| CallInitialize
| CallRefreshContext
| CallForceRefresh
| CallGetContextForQuery (userQuery : string)
| CallCleanup.

Definition run (env : Env) (c : Call) (st : State) : State :=
  match c with
  | CallInitialize => snd (initialize env st)
  | CallRefreshContext => snd (refreshContext env st)
  | CallForceRefresh => snd (forceRefresh env st)
  | CallGetContextForQuery q => snd (getContextForQuery env q st)
  | CallCleanup => snd (cleanup st)
  end.

(** The states the singleton can be in: created with [initial] fields,
    then any sequence of calls, each in its own environment. *)
Inductive reachable : State -> Prop :=
| reachable_initial (n : nat) : reachable (initial, n)
| reachable_call (env : Env) (c : Call) (st : State) :
    reachable st -> reachable (run env c st).

End MCPContextManager.

(* ===================================================================== *)
(** * Notions used to state the properties *)
(* ===================================================================== *)

Module Notions.
Import JS MCPContextManager.

(** A string without whitespace, and a word: such a string that is not
    empty. *)
Fixpoint no_space (s : string) : bool :=
  match s with
  | EmptyString => true
  | String c s' => negb (is_space c) && no_space s'
  end.

Definition word_ok (w : string) : Prop := w <> "" /\ no_space w = true.

(** The text of the chunk cut from the window of [size] words that starts
    at word [i]. *)
Definition window_text (words : list string) (size i : nat) : string :=
  trim (join " " (slice i (i + size) words)).

(** [k] characters ['#']. *)
Fixpoint hash_run (k : nat) : string :=
  match k with
  | 0 => ""
  | S k' => String "#" (hash_run k')
  end.

(** A section that was started by the header line [L]. *)
Definition headed (L : string) (sec : ContextProcessor.MdSection) : Prop :=
  ContextProcessor.title sec = ContextProcessor.header_title L
  /\ exists rest, ContextProcessor.sec_content sec = L ++ nl ++ rest.

(** Two chunks that differ at most in their [id]. *)
Definition same_chunk_but_id (c c' : ContextChunk) : Prop :=
  content c = content c'
  /\ keywords c = keywords c'
  /\ section c = section c'
  /\ relevanceScore c = relevanceScore c'.

(** Two cached documents that differ at most in the ids of their chunks. *)
Definition same_document_but_ids (d d' : option ContextDocument) : Prop :=
  match d, d' with
  | Some d, Some d' =>
      doc_content d = doc_content d'
      /\ lastModified d = lastModified d'
      /\ size d = size d'
      /\ isValid d = isValid d'
      /\ Forall2 same_chunk_but_id (chunks d) (chunks d')
  | None, None => True
  | _, _ => False
  end.

(** The document [readContextFile] returns, read off the answers of the
    three file operations. *)
Definition file_document (fs : RNFS) : option ContextDocument :=
  match RNFS_exists fs, RNFS_readFile fs, RNFS_stat fs with
  | Ok true, Ok text, Ok stats =>
      Some {| doc_content := text;
              lastModified := mtime stats;
              size := stat_size stats;
              chunks := [];
              isValid := 0 <? String.length (trim text) |}
  | _, _, _ => None
  end.

(** The state [refreshContext] leaves. *)
Definition refreshed (env : Env) (st : State) : State :=
  match file_document (fs env) with
  | Some doc =>
      let (cs, n') :=
        ContextProcessor.processContextContent (rnd env) (doc_content doc) (snd st) in
      ({| contextDocument :=
            Some {| doc_content := doc_content doc;
                    lastModified := lastModified doc;
                    size := size doc;
                    chunks := cs;
                    isValid := isValid doc |};
          lastFileCheck := Some (now env);
          isInitialized := isInitialized (fst st) |}, n')
  | None =>
      ({| contextDocument := None;
          lastFileCheck := lastFileCheck (fst st);
          isInitialized := isInitialized (fst st) |}, snd st)
  end.

(** The state [initialize] leaves: refreshed, with the flag set. *)
Definition flag_set (st : State) : State :=
  ({| contextDocument := contextDocument (fst st);
      lastFileCheck := lastFileCheck (fst st);
      isInitialized := true |}, snd st).

(** The state a query leaves: the one it found, initialised first if the
    flag was not set. *)
Definition after_query (env : Env) (st : State) : State :=
  if isInitialized (fst st) then st else flag_set (refreshed env st).

(** What a query answers in the state it leaves. *)
Definition query_result (q : string) (st : State) : option string :=
  match contextDocument (fst st) with
  | Some doc =>
      if isContextAvailable (fst st) then
        Some (ContextProcessor.buildContextPrompt q
                (ContextProcessor.extractRelevantChunks q (chunks doc)))
      else None
  | None => None
  end.

(** The flag [isValid] of the cached document says whether its text is
    non-empty after trimming. *)
Definition valid_flag_accurate (this : Fields) : Prop :=
  forall doc, contextDocument this = Some doc ->
    isValid doc = (0 <? String.length (trim (doc_content doc))).

(** Every character of a string passes a test. *)
Fixpoint string_forall (p : ascii -> bool) (s : string) : bool :=
  match s with
  | EmptyString => true
  | String c s' => p c && string_forall p s'
  end.

(** The characters [a-z0-9]. *)
Definition is_lower_alnum (c : ascii) : bool :=
  in_range 97 122 c || in_range 48 57 c.

(** A text of whitespace only. *)
Definition blank (s : string) : bool := string_forall is_space s.

(** The three character-wise steps of [cleanContent] as one. *)
Definition clean_char (c : ascii) : ascii :=
  let c1 := if ContextProcessor.is_markdown_char c then " "%char else c in
  let c2 := lower c1 in
  if is_word c2 || is_space c2 then c2 else " "%char.

(** The lines of a text, each closed by a line feed. *)
Fixpoint unlines (ls : list string) : string :=
  match ls with
  | [] => ""
  | l :: r => l ++ nl ++ unlines r
  end.

(** The title of a section is empty or the title of a header line of the
    given lines. *)
Definition title_from (lines : list string) (sec : ContextProcessor.MdSection)
  : Prop :=
  ContextProcessor.title sec = ""
  \/ exists L, In L lines /\ ContextProcessor.is_header L = true
               /\ ContextProcessor.title sec = ContextProcessor.header_title L.

(** The chunks of the cached document are those of its text, for some
    ids. *)
Definition chunks_of_text (this : Fields) : Prop :=
  forall doc, contextDocument this = Some doc ->
    exists rnd n,
      chunks doc = fst (ContextProcessor.processContextContent rnd (doc_content doc) n).

(** The file system answers with a text that is not blank. *)
Definition usable_file (fs : RNFS) : Prop :=
  exists text stats,
    RNFS_exists fs = Ok true
    /\ RNFS_readFile fs = Ok text
    /\ RNFS_stat fs = Ok stats
    /\ trim text <> "".

(** What [extractKeywords] promises of its result. *)
Definition keywords_wellformed (kws : list string) : Prop :=
  length kws <= 20
  /\ NoDup kws
  /\ Forall (fun w => CONTEXT_CONSTANTS.MIN_KEYWORD_LENGTH <= String.length w
                      /\ ContextProcessor.isStopWord w = false
                      /\ string_forall is_lower_alnum w = true) kws.

(** Scores from high to low. *)
Fixpoint descending (l : list ContextChunk) : Prop :=
  match l with
  | [] => True
  | x :: l' =>
      Forall (fun y => (ContextProcessor.score_or_zero y
                        <= ContextProcessor.score_or_zero x)%Q) l'
      /\ descending l'
  end.

End Notions.

(* ===================================================================== *)
(** * Concrete inputs *)
(* ===================================================================== *)

Module Samples.
Import JS.

Definition sample_chunk : ContextChunk :=
  {| id := "c1"; content := "I like Rust and Go."; keywords := ["like"; "rust"];
     section := Some "About"; relevanceScore := None |}.

Definition other_chunk : ContextChunk :=
  {| id := "c2"; content := "I enjoy chess."; keywords := ["enjoy"; "chess"];
     section := Some "Hobbies"; relevanceScore := None |}.

Definition third_chunk : ContextChunk :=
  {| id := "c3"; content := "Tea, mostly."; keywords := ["tea"; "mostly"];
     section := None; relevanceScore := Some (1 # 2) |}.

(** Scenario A of the specification. *)
Definition scenarioA_document : string :=
  "# About" ++ nl ++ "I like Rust and Go." ++ nl ++ "# Hobbies" ++ nl ++ "I enjoy chess.".

Definition scenarioA_query : string := "What languages do you like?".

(** A query of exactly 20 keywords, and a chunk that matches one of them. *)
Definition twenty_word_query : string :=
  "alpha bravo charlie delta echo foxtrot golf hotel india juliet kilo lima mike november oscar papa quebec romeo sierra tango".

Definition tango_chunk : ContextChunk :=
  {| id := "c4"; content := "Tango lessons."; keywords := ["tango"; "lessons"];
     section := None; relevanceScore := None |}.

(** A query made of stop words only. *)
Definition stopword_query : string := "the and of".

(** A section of 1200 one-letter words (scenario E). *)
Fixpoint repeat_word (n : nat) : string :=
  match n with
  | 0 => ""
  | S n' => "w " ++ repeat_word n'
  end.

Definition long_section : ContextProcessor.MdSection :=
  {| ContextProcessor.title := "Long";
     ContextProcessor.sec_content := repeat_word 1200 |}.

(** A random source that never repeats an id: the n-th id is n marks. *)
Definition distinct_uuids : uuid_source := fun n => Notions.hash_run n.

(** Two version-4 ids, then the second one again. *)
Definition sample_uuids : uuid_source :=
  fun n =>
    match n with
    | 0 => "11111111-1111-4111-8111-111111111111"
    | _ => "22222222-2222-4222-8222-222222222222"
    end.

(** A context file that exists and holds only blanks. *)
Definition blank_file : RNFS :=
  {| RNFS_exists := Ok true;
     RNFS_readFile := Ok ("  " ++ nl);
     RNFS_stat := Ok {| mtime := 1000%N; stat_size := 3%N |} |}.

(** A context file holding one word. *)
Definition hello_file : RNFS :=
  {| RNFS_exists := Ok true;
     RNFS_readFile := Ok "hello";
     RNFS_stat := Ok {| mtime := 1000%N; stat_size := 5%N |} |}.

(** No context file. *)
Definition absent_file : RNFS :=
  {| RNFS_exists := Ok false;
     RNFS_readFile := Throw "ENOENT";
     RNFS_stat := Throw "ENOENT" |}.

Definition hello_env : MCPContextManager.Env :=
  {| MCPContextManager.fs := hello_file;
     MCPContextManager.now := 2000%N;
     MCPContextManager.rnd := sample_uuids |}.

Definition absent_env : MCPContextManager.Env :=
  {| MCPContextManager.fs := absent_file;
     MCPContextManager.now := 2000%N;
     MCPContextManager.rnd := sample_uuids |}.

End Samples.

(* ===================================================================== *)
(** * Properties *)
(* ===================================================================== *)

(** ** Strings *)

Section StringFacts.
Import JS.

Lemma append_assoc (a b c : string) : (a ++ b) ++ c = a ++ (b ++ c).
Proof. induction a as [|x a IH]; simpl; [reflexivity | now rewrite IH]. Qed.

Lemma append_empty_r (a : string) : a ++ "" = a.
Proof. induction a as [|x a IH]; simpl; [reflexivity | now rewrite IH]. Qed.

Lemma length_zero_empty (s : string) : String.length s = 0 <-> s = "".
Proof. destruct s; simpl; split; intro H; try reflexivity; discriminate. Qed.

Lemma is_empty_true (s : string) : is_empty s = true <-> s = "".
Proof. destruct s; simpl; split; intro H; try reflexivity; discriminate. Qed.

Lemma is_empty_false (s : string) : is_empty s = false <-> s <> "".
Proof.
  destruct s; simpl; split; intro H; try discriminate; try reflexivity.
  now elim H.
Qed.

Lemma positive_length_nonempty (s : string) :
  (0 <? String.length s) = true <-> s <> "".
Proof.
  destruct s; simpl; split; intro H; try discriminate; try reflexivity.
  now elim H.
Qed.

(** An element of a joined array is a contiguous part of the result. *)
Lemma join_contains (sep x : string) (l : list string) :
  In x l -> exists pre post, join sep l = pre ++ x ++ post.
Proof.
  unfold join. induction l as [|y l IH]; intros Hin; [contradiction|].
  destruct Hin as [-> | Hin].
  - destruct l as [|z l].
    + exists "", "". simpl. now rewrite append_empty_r.
    + exists "", (sep ++ String.concat sep (z :: l)). reflexivity.
  - destruct l as [|z l]; [contradiction|].
    destruct (IH Hin) as (pre & post & E).
    exists (y ++ sep ++ pre), post.
    change (String.concat sep (y :: z :: l))
      with (y ++ sep ++ String.concat sep (z :: l)).
    rewrite E. now rewrite !append_assoc.
Qed.

End StringFacts.

(** ** buildContextPrompt *)

Section PromptFacts.
Import JS ContextProcessor Samples.

Lemma render_chunk_contains (c : ContextChunk) :
  exists header, render_chunk c = header ++ content c
    /\ (header = ""
        \/ exists s, section c = Some s /\ header = "**" ++ s ++ ":**" ++ nl).
Proof.
  unfold render_chunk. destruct (section c) as [s|].
  - destruct (is_empty s).
    + exists "". split; [reflexivity | now left].
    + exists ("**" ++ s ++ ":**" ++ nl). split; [reflexivity|]. right. now exists s.
  - exists "". split; [reflexivity | now left].
Qed.

Lemma buildContextPrompt_nonempty (q : string) (cs : list ContextChunk) :
  cs <> [] -> buildContextPrompt q cs <> "".
Proof.
  intros Hne. unfold buildContextPrompt.
  destruct cs as [|c cs]; [now elim Hne|]. simpl. discriminate.
Qed.

(** C7. The prompt of the empty selection is the empty string; the prompt
    of a non-empty selection is the preamble, the rendered chunks joined
    by a blank line, and the closing instruction, where a rendered chunk
    is its text behind an optional [**section:**] header line; so the
    text of every selected chunk occurs verbatim, as one contiguous
    piece, in the prompt. *)
Theorem buildContextPrompt_contains_chunks (q : string) (cs : list ContextChunk) :
  buildContextPrompt q [] = ""
  /\ (cs <> [] ->
      buildContextPrompt q cs
      = preamble ++ join (nl ++ nl) (map render_chunk cs) ++ closing)
  /\ (forall c, In c cs ->
      (exists header, render_chunk c = header ++ content c
         /\ (header = ""
             \/ exists s, section c = Some s /\ header = "**" ++ s ++ ":**" ++ nl))
      /\ exists pre post, buildContextPrompt q cs = pre ++ content c ++ post).
Proof.
  split; [reflexivity|]. split.
  - intros Hne. destruct cs; [now elim Hne | reflexivity].
  - intros c Hin. split; [apply render_chunk_contains|].
    assert (Hr : In (render_chunk c) (map render_chunk cs)) by now apply in_map.
    destruct (join_contains (nl ++ nl) _ _ Hr) as (pre & post & E).
    destruct (render_chunk_contains c) as (header & Eh & _).
    exists (preamble ++ pre ++ header), (post ++ closing).
    unfold buildContextPrompt. destruct cs as [|c0 cs]; [contradiction|].
    cbn [length Nat.eqb]. rewrite E, Eh. now rewrite !append_assoc.
Qed.

Lemma buildContextPrompt_contains_chunks_witness :
  exists pre post,
    buildContextPrompt "q" [sample_chunk] = pre ++ content sample_chunk ++ post.
Proof.
  apply (proj2 (proj2 (buildContextPrompt_contains_chunks "q" [sample_chunk]))
               sample_chunk).
  simpl. left. reflexivity.
Defined.

End PromptFacts.

(** ** Scoring and selection *)

Section SelectionFacts.
Import JS ContextProcessor Samples.

Lemma slice_from_zero {A : Type} (k : nat) (l : list A) : slice 0 k l = firstn k l.
Proof. unfold slice. now rewrite Nat.sub_0_r. Qed.

Lemma insert_by_score_length (x : ContextChunk) (l : list ContextChunk) :
  length (insert_by_score x l) = S (length l).
Proof.
  induction l as [|y l IH]; simpl; [reflexivity|].
  destruct (Qltb _ _); simpl; [now rewrite IH | reflexivity].
Qed.

Lemma sort_by_score_length (l : list ContextChunk) :
  length (sort_by_score l) = length l.
Proof.
  induction l as [|x l IH]; simpl; [reflexivity|].
  now rewrite insert_by_score_length, IH.
Qed.

(** Sorting leaves an array of equal scores as it is. *)
Lemma sort_by_score_constant (s : Q) (l : list ContextChunk) :
  Qltb s s = false ->
  Forall (fun c => score_or_zero c = s) l ->
  sort_by_score l = l.
Proof.
  intros Hs Hall. induction l as [|x l IH]; simpl; [reflexivity|].
  inversion Hall as [|? ? Hx Hl]; subst.
  rewrite (IH Hl). destruct l as [|y l]; simpl; [reflexivity|].
  inversion Hl as [|? ? Hy _]; subst. rewrite Hy, Hs. reflexivity.
Qed.

Lemma score_without_query_keywords (c : ContextChunk) :
  calculateSimpleRelevanceScore [] c = 0%Q.
Proof. reflexivity. Qed.

Lemma scoredChunks_length (q : string) (cs : list ContextChunk) :
  length (scoredChunks q cs) = length cs.
Proof. unfold scoredChunks. apply length_map. Qed.

(** Whenever there are chunks, some chunk is selected. *)
Lemma extractRelevantChunks_nonempty (q : string) (cs : list ContextChunk) :
  cs <> [] -> extractRelevantChunks q cs <> [].
Proof.
  intros Hne. unfold extractRelevantChunks.
  assert (Hlen : 0 < length (scoredChunks q cs)).
  { rewrite scoredChunks_length. destruct cs; [now elim Hne | simpl; lia]. }
  destruct (takes_fallback (scoredChunks q cs)) eqn:Hf.
  - unfold fallbackSelection. rewrite slice_from_zero. intros E.
    apply (f_equal (@length _)) in E.
    rewrite length_firstn, sort_by_score_length in E.
    change (Nat.min 2 CONTEXT_CONSTANTS.MAX_CHUNKS_PER_QUERY) with 2 in E.
    change (length (@nil ContextChunk)) with 0 in E. lia.
  - unfold takes_fallback in Hf. apply andb_false_iff in Hf.
    destruct Hf as [Hf | Hf].
    + apply Nat.eqb_neq in Hf. intros E. rewrite E in Hf. now apply Hf.
    + apply Nat.ltb_ge in Hf. lia.
Qed.

(** C1. When the query has no keyword, every chunk scores 0; and when
    there is a chunk, no chunk clears the threshold, the fallback branch
    is taken, and the result is the first [min 2 |chunks|] chunks in
    document order, each carrying the score 0. *)
Theorem empty_query_keywords_fallback (q : string) (cs : list ContextChunk) :
  extractKeywords q = [] ->
  (forall c, In c cs -> calculateSimpleRelevanceScore (extractKeywords q) c = 0%Q)
  /\ (cs <> [] ->
      thresholdSelection (scoredChunks q cs) = []
      /\ takes_fallback (scoredChunks q cs) = true
      /\ extractRelevantChunks q cs
         = map (with_score 0) (firstn (Nat.min 2 (length cs)) cs)).
Proof.
  intros Hq. split.
  - intros c _. rewrite Hq. apply score_without_query_keywords.
  - intros Hne.
    assert (Hs : scoredChunks q cs = map (with_score 0) cs).
    { unfold scoredChunks. rewrite Hq. apply map_ext. intros c.
      now rewrite score_without_query_keywords. }
    assert (Ht : thresholdSelection (scoredChunks q cs) = []).
    { rewrite Hs. unfold thresholdSelection.
      replace (filter _ (map (with_score 0) cs)) with (@nil ContextChunk);
        [reflexivity|].
      clear. induction cs as [|c cs IH]; simpl; [reflexivity | exact IH]. }
    assert (Hf : takes_fallback (scoredChunks q cs) = true).
    { unfold takes_fallback. rewrite Ht, scoredChunks_length.
      destruct cs; [now elim Hne | reflexivity]. }
    split; [exact Ht|]. split; [exact Hf|].
    unfold extractRelevantChunks. rewrite Hf, Hs.
    unfold fallbackSelection. rewrite slice_from_zero.
    rewrite (sort_by_score_constant 0%Q); [| reflexivity |].
    + rewrite firstn_map. f_equal.
      change (Nat.min 2 CONTEXT_CONSTANTS.MAX_CHUNKS_PER_QUERY) with 2.
      destruct cs as [|a [|b cs']]; reflexivity.
    + apply Forall_forall. intros c Hc. apply in_map_iff in Hc.
      destruct Hc as (c0 & <- & _). reflexivity.
Qed.

Lemma empty_query_keywords_fallback_witness :
  extractRelevantChunks stopword_query [sample_chunk; other_chunk; third_chunk]
  = [with_score 0 sample_chunk; with_score 0 other_chunk].
Proof.
  apply (proj2 (empty_query_keywords_fallback stopword_query
                  [sample_chunk; other_chunk; third_chunk] eq_refl)).
  discriminate.
Defined.

End SelectionFacts.

(** ** ContextFileManager.readContextFile *)

Section FileFacts.
Import JS ContextFileManager Notions Samples.

Lemma readContextFile_run {S : Type} (fs : RNFS) (s : S) :
  readContextFile fs s = (Ok (file_document fs), s).
Proof.
  unfold readContextFile, checkContextFileExists, file_document,
    try_catch, bind, await, ret.
  destruct (RNFS_exists fs) as [[|]|e]; simpl; try reflexivity.
  destruct (RNFS_readFile fs) as [text|e]; simpl; try reflexivity.
  destruct (RNFS_stat fs) as [stats|e]; reflexivity.
Qed.

(** C4, as the claim has it, fails: for a file that exists and holds only
    blanks the result is a document, not [null]. *)
Lemma readContextFile_blank_text_is_not_null :
  trim ("  " ++ nl) = ""
  /\ RNFS_readFile blank_file = Ok ("  " ++ nl)
  /\ readContextFile blank_file tt
     = (Ok (Some {| doc_content := "  " ++ nl;
                    lastModified := 1000%N;
                    size := 3%N;
                    chunks := [];
                    isValid := false |}), tt).
Proof. repeat split. Qed.

(** C4, amended. [readContextFile] never throws.  It returns [null] when
    the file is absent and when the existence check, the read or the
    stat fails.  For a file that exists and is read it returns a document
    with no chunks whose [isValid] tells whether the text is non-empty
    after trimming: for a blank text, a document with [isValid = false]. *)
Theorem readContextFile_fail_soft {S : Type} (fs : RNFS) (s : S) :
  exists r, readContextFile fs s = (Ok r, s)
    /\ (RNFS_exists fs <> Ok true -> r = None)
    /\ ((exists e, RNFS_readFile fs = Throw e) -> r = None)
    /\ ((exists e, RNFS_stat fs = Throw e) -> r = None)
    /\ (forall text stats,
          RNFS_exists fs = Ok true ->
          RNFS_readFile fs = Ok text ->
          RNFS_stat fs = Ok stats ->
          r = Some {| doc_content := text;
                      lastModified := mtime stats;
                      size := stat_size stats;
                      chunks := [];
                      isValid := negb (is_empty (trim text)) |}).
Proof.
  exists (file_document fs). split; [apply readContextFile_run|].
  unfold file_document. repeat split.
  - intros Hex. destruct (RNFS_exists fs) as [[|]|e]; try reflexivity. now elim Hex.
  - intros (e & ->). destruct (RNFS_exists fs) as [[|]|e']; reflexivity.
  - intros (e & ->).
    destruct (RNFS_exists fs) as [[|]|e']; try reflexivity.
    destruct (RNFS_readFile fs); reflexivity.
  - intros text stats -> -> ->. do 2 f_equal. now destruct (trim text).
Qed.

Lemma readContextFile_fail_soft_witness :
  exists r, readContextFile blank_file tt = (Ok r, tt)
    /\ r = Some {| doc_content := "  " ++ nl;
                   lastModified := 1000%N;
                   size := 3%N;
                   chunks := [];
                   isValid := false |}.
Proof.
  destruct (readContextFile_fail_soft blank_file tt) as (r & Hrun & _ & _ & _ & Hdoc).
  exists r. split; [exact Hrun|].
  apply (Hdoc ("  " ++ nl) {| mtime := 1000%N; stat_size := 3%N |});
    reflexivity.
Defined.

End FileFacts.

(** ** MCPContextManager: what one call does *)

Section ManagerFacts.
Import JS MCPContextManager Notions Samples.

Lemma refreshContext_run (env : Env) (st : State) :
  refreshContext env st = (Ok tt, refreshed env st).
Proof.
  unfold refreshContext, try_catch, bind.
  rewrite readContextFile_run. unfold refreshed.
  destruct (file_document (fs env)) as [doc|]; [|reflexivity].
  unfold processContextContent.
  destruct (ContextProcessor.processContextContent _ _ _) as [cs n']. reflexivity.
Qed.

Lemma initialize_run (env : Env) (st : State) :
  initialize env st = (Ok tt, flag_set (refreshed env st)).
Proof.
  unfold initialize, try_catch, bind. rewrite refreshContext_run. reflexivity.
Qed.

Lemma forceRefresh_run (env : Env) (st : State) :
  forceRefresh env st
  = (Ok (isContextAvailable (fst (refreshed env st))), refreshed env st).
Proof.
  unfold forceRefresh, try_catch, bind. rewrite refreshContext_run. reflexivity.
Qed.

Lemma isContextAvailable_true (this : Fields) :
  isContextAvailable this = true <->
  exists doc, contextDocument this = Some doc
              /\ isValid doc = true /\ chunks doc <> [].
Proof.
  unfold isContextAvailable. split.
  - destruct (contextDocument this) as [doc|]; [|discriminate].
    intros H. apply andb_true_iff in H. destruct H as [Hv Hc].
    exists doc. repeat split; [exact Hv|].
    intros E. rewrite E in Hc. discriminate.
  - intros (doc & -> & Hv & Hc). rewrite Hv.
    destruct (chunks doc); [now elim Hc | reflexivity].
Qed.

Lemma isContextAvailable_false (this : Fields) :
  isContextAvailable this = false <->
  contextDocument this = None
  \/ exists doc, contextDocument this = Some doc
                 /\ (isValid doc = false \/ chunks doc = []).
Proof.
  unfold isContextAvailable. split.
  - destruct (contextDocument this) as [doc|]; [|now left].
    intros H. right. exists doc. split; [reflexivity|].
    apply andb_false_iff in H. destruct H as [H|H]; [now left | right].
    destruct (chunks doc); [reflexivity | discriminate].
  - intros [-> | (doc & -> & [-> | ->])]; try reflexivity.
    apply andb_false_r.
Qed.

Lemma bind_run {S A B : Type} (m : M S A) (k : A -> M S B) (s s' : S) (a : A) :
  m s = (Ok a, s') -> bind m k s = k a s'.
Proof. intros H. unfold bind. now rewrite H. Qed.

Lemma try_catch_returns {S A : Type} (body : M S A) (handler : string -> M S A)
    (s s' : S) (a : A) :
  body s = (Ok a, s') -> try_catch body handler s = (Ok a, s').
Proof. intros H. unfold try_catch. now rewrite H. Qed.

Lemma query_after_initialisation_run (q : string) (st : State) :
  (available <- gets (fun st : State => isContextAvailable (fst st)) ;;
   if negb available then ret None
   else
     chunks <- contextDocument_chunks ;;
     let relevantChunks := ContextProcessor.extractRelevantChunks q chunks in
     if length relevantChunks =? 0 then ret None
     else
       let contextPrompt := ContextProcessor.buildContextPrompt q relevantChunks in
       ret (Some contextPrompt))%js st
  = (Ok (query_result q st), st).
Proof.
  erewrite bind_run by reflexivity.
  unfold query_result.
  destruct (isContextAvailable (fst st)) eqn:Hav; cbn [negb].
  - apply isContextAvailable_true in Hav. destruct Hav as (doc & Hd & _ & Hc).
    rewrite Hd.
    erewrite bind_run by (unfold contextDocument_chunks; now rewrite Hd).
    pose proof (extractRelevantChunks_nonempty q _ Hc) as Hne. cbv zeta.
    destruct (ContextProcessor.extractRelevantChunks q (chunks doc));
      [now elim Hne | reflexivity].
  - unfold ret. now destruct (contextDocument (fst st)).
Qed.

Lemma getContextForQuery_run (env : Env) (q : string) (st : State) :
  getContextForQuery env q st
  = (Ok (query_result q (after_query env st)), after_query env st).
Proof.
  unfold getContextForQuery. apply try_catch_returns.
  erewrite bind_run by reflexivity. cbn beta.
  erewrite bind_run with (s' := after_query env st) (a := tt).
  - apply query_after_initialisation_run.
  - unfold after_query. destruct (isInitialized (fst st)); cbn [negb].
    + reflexivity.
    + apply initialize_run.
Qed.

End ManagerFacts.

(** ** Chunking twice *)

Section RepeatFacts.
Import JS ContextProcessor MCPContextManager Notions Samples.

Lemma chunk_loop_same_but_ids (rnd rnd' : uuid_source) (t : string)
    (words : list string) (chunkSize overlap : nat) (fuel : nat) :
  forall i n n',
    Forall2 same_chunk_but_id
      (fst (chunk_loop fuel rnd t words chunkSize overlap i n))
      (fst (chunk_loop fuel rnd' t words chunkSize overlap i n')).
Proof.
  induction fuel as [|fuel IH]; intros i n n'; simpl; [constructor|].
  destruct (i <? length words); [|constructor].
  destruct (0 <? String.length _).
  - specialize (IH (i + (chunkSize - overlap)) (S n) (S n')).
    destruct (chunk_loop fuel rnd t words chunkSize overlap _ (S n)) as [r1 m1].
    destruct (chunk_loop fuel rnd' t words chunkSize overlap _ (S n')) as [r2 m2].
    simpl in *. constructor; [repeat split | exact IH].
  - apply IH.
Qed.

Lemma process_sections_same_but_ids (rnd rnd' : uuid_source)
    (sections : list MdSection) :
  forall n n',
    Forall2 same_chunk_but_id
      (fst (process_sections rnd sections n))
      (fst (process_sections rnd' sections n')).
Proof.
  induction sections as [|sec rest IH]; intros n n'; simpl; [constructor|].
  pose proof (chunk_loop_same_but_ids rnd rnd' (title sec)
                (split_ws (sec_content sec))
                CONTEXT_CONSTANTS.CHUNK_SIZE CONTEXT_CONSTANTS.CHUNK_OVERLAP
                (length (split_ws (sec_content sec))) 0 n n') as Hsec.
  unfold createChunksFromSection.
  destruct (chunk_loop _ rnd _ _ _ _ _ n) as [cs1 m1].
  destruct (chunk_loop _ rnd' _ _ _ _ _ n') as [cs2 m2].
  specialize (IH m1 m2).
  destruct (process_sections rnd rest m1) as [r1 k1].
  destruct (process_sections rnd' rest m2) as [r2 k2].
  simpl in *. now apply Forall2_app.
Qed.

Lemma processContextContent_same_but_ids (rnd rnd' : uuid_source) (D : string)
    (n n' : nat) :
  Forall2 same_chunk_but_id
    (fst (ContextProcessor.processContextContent rnd D n))
    (fst (ContextProcessor.processContextContent rnd' D n')).
Proof. apply process_sections_same_but_ids. Qed.

Lemma refreshed_same_but_ids (env env' : Env) (st st' : State) :
  fs env = fs env' ->
  same_document_but_ids (contextDocument (fst (refreshed env st)))
                        (contextDocument (fst (refreshed env' st'))).
Proof.
  intros Hfs. unfold refreshed. rewrite <- Hfs.
  destruct (file_document (fs env)) as [doc|]; [|exact I].
  pose proof (processContextContent_same_but_ids (rnd env) (rnd env')
                (doc_content doc) (snd st) (snd st')) as H.
  destruct (ContextProcessor.processContextContent (rnd env) _ _) as [cs1 m1].
  destruct (ContextProcessor.processContextContent (rnd env') _ _) as [cs2 m2].
  simpl in *. repeat split; try reflexivity. exact H.
Qed.

(** C3, as the claim has it, fails: the ids are drawn from the random
    source, so processing the same text a second time gives the chunks
    other ids. *)
Lemma processing_twice_changes_ids :
  let first := ContextProcessor.processContextContent sample_uuids "hello" 0 in
  let second := ContextProcessor.processContextContent sample_uuids "hello" (snd first) in
  map id (fst first) = ["11111111-1111-4111-8111-111111111111"]
  /\ map id (fst second) = ["22222222-2222-4222-8222-222222222222"]
  /\ fst first <> fst second.
Proof.
  cbv zeta. vm_compute. repeat split. intros H. discriminate H.
Qed.

(** C3, amended. Processing a text twice, whatever ids are drawn, gives
    chunk lists of the same length that agree chunk by chunk in text,
    keywords and section; and two refreshes that find the same file leave
    documents that differ at most in the ids of their chunks.  The ids
    themselves are fresh random uuids on every run. *)
Theorem processing_twice_same_but_ids (D : string) (rnd rnd' : uuid_source)
    (n n' : nat) :
  Forall2 same_chunk_but_id
    (fst (ContextProcessor.processContextContent rnd D n))
    (fst (ContextProcessor.processContextContent rnd' D n'))
  /\ (forall (env env' : Env) (st st' : State),
        fs env = fs env' ->
        same_document_but_ids
          (contextDocument (fst (snd (refreshContext env st))))
          (contextDocument (fst (snd (refreshContext env' st'))))).
Proof.
  split; [apply processContextContent_same_but_ids|].
  intros env env' st st' Hfs. rewrite !refreshContext_run. cbn [snd].
  now apply refreshed_same_but_ids.
Qed.

Lemma processing_twice_same_but_ids_witness :
  same_document_but_ids
    (contextDocument (fst (snd (refreshContext hello_env (initial, 0)))))
    (contextDocument
       (fst (snd (refreshContext hello_env
                    (snd (refreshContext hello_env (initial, 0))))))).
Proof.
  apply (proj2 (processing_twice_same_but_ids "hello" sample_uuids sample_uuids 0 0)
               hello_env hello_env).
  reflexivity.
Defined.

End RepeatFacts.

(** ** MCPContextManager: queries, availability, initialisation *)

Section LifecycleFacts.
Import JS MCPContextManager Notions Samples.

(** C2. A query never throws.  It leaves the state it found, initialised
    first if the flag was not set; it returns [null] exactly when the
    context is unavailable in that state (no cached document, or the
    document is invalid, or it has no chunk); and when the context is
    available it returns a prompt that is not the empty string. *)
Theorem getContextForQuery_never_throws (env : Env) (q : string) (st : State) :
  exists (r : option string) (st' : State),
    getContextForQuery env q st = (Ok r, st')
    /\ st' = (if isInitialized (fst st) then st else snd (initialize env st))
    /\ (r = None <-> isContextAvailable (fst st') = false)
    /\ (r = None <->
        contextDocument (fst st') = None
        \/ exists doc, contextDocument (fst st') = Some doc
                       /\ (isValid doc = false \/ chunks doc = []))
    /\ (isContextAvailable (fst st') = true ->
        exists prompt, r = Some prompt /\ prompt <> "").
Proof.
  exists (query_result q (after_query env st)), (after_query env st).
  split; [apply getContextForQuery_run|].
  split; [unfold after_query; rewrite initialize_run; reflexivity|].
  set (st' := after_query env st).
  assert (Hnone : query_result q st' = None <-> isContextAvailable (fst st') = false).
  { unfold query_result, isContextAvailable.
    destruct (contextDocument (fst st')) as [doc|]; [|tauto].
    destruct (isValid doc && (0 <? length (chunks doc))); split; intro H;
      try reflexivity; discriminate. }
  split; [exact Hnone|]. split.
  - rewrite Hnone. apply isContextAvailable_false.
  - intros Hav. unfold query_result. rewrite Hav.
    apply isContextAvailable_true in Hav. destruct Hav as (doc & -> & _ & Hc).
    eexists. split; [reflexivity|].
    apply buildContextPrompt_nonempty.
    now apply extractRelevantChunks_nonempty.
Qed.

Lemma getContextForQuery_never_throws_witness :
  exists prompt,
    fst (getContextForQuery hello_env "hello there" (initial, 0)) = Ok (Some prompt)
    /\ prompt <> "".
Proof.
  destruct (getContextForQuery_never_throws hello_env "hello there" (initial, 0))
    as (r & st' & Hrun & Hst & _ & _ & Hav).
  destruct (Hav ltac:(rewrite Hst; reflexivity)) as (prompt & Hr & Hne).
  exists prompt. rewrite Hrun, Hr. split; [reflexivity | exact Hne].
Defined.

End LifecycleFacts.

Section AvailabilityFacts.
Import JS MCPContextManager Notions Samples.

Lemma refreshed_valid_flag (env : Env) (st : State) :
  valid_flag_accurate (fst (refreshed env st)).
Proof.
  unfold valid_flag_accurate, refreshed, file_document.
  destruct (RNFS_exists (fs env)) as [[|]|e]; try (intros doc H; discriminate H).
  destruct (RNFS_readFile (fs env)) as [text|e]; try (intros doc H; discriminate H).
  destruct (RNFS_stat (fs env)) as [stats|e]; try (intros doc H; discriminate H).
  cbn [doc_content isValid lastModified size].
  destruct (ContextProcessor.processContextContent _ _ _) as [cs n'].
  intros doc H. cbn in H. injection H as <-. reflexivity.
Qed.

Lemma cleanup_run (st : State) :
  cleanup st
  = (Ok tt, ({| contextDocument := None;
                lastFileCheck := lastFileCheck (fst st);
                isInitialized := false |}, snd st)).
Proof. reflexivity. Qed.

Lemma run_valid_flag (env : Env) (c : Call) (st : State) :
  valid_flag_accurate (fst st) -> valid_flag_accurate (fst (run env c st)).
Proof.
  intros Hst. destruct c; unfold run.
  - rewrite initialize_run. apply refreshed_valid_flag.
  - rewrite refreshContext_run. apply refreshed_valid_flag.
  - rewrite forceRefresh_run. apply refreshed_valid_flag.
  - rewrite getContextForQuery_run. cbn [snd]. unfold after_query.
    destruct (isInitialized (fst st)); [exact Hst | apply refreshed_valid_flag].
  - rewrite cleanup_run. intros doc H. discriminate H.
Qed.

Lemma reachable_valid_flag (st : State) :
  reachable st -> valid_flag_accurate (fst st).
Proof.
  induction 1 as [n | env c st _ IH].
  - intros doc H. discriminate H.
  - now apply run_valid_flag.
Qed.

(** C6. In every state the manager can reach, [isContextAvailable()]
    answers [true] exactly when there is a cached document, that document
    is flagged valid, which is to say that its raw text is non-empty
    after trimming, and its chunk list is non-empty. *)
Theorem isContextAvailable_iff (st : State) :
  reachable st ->
  (isContextAvailable (fst st) = true <->
   exists doc, contextDocument (fst st) = Some doc
               /\ isValid doc = true
               /\ trim (doc_content doc) <> ""
               /\ chunks doc <> [])
  /\ (forall doc, contextDocument (fst st) = Some doc ->
        (isValid doc = true <-> trim (doc_content doc) <> "")).
Proof.
  intros Hreach. pose proof (reachable_valid_flag st Hreach) as Hflag.
  assert (Hvalid : forall doc, contextDocument (fst st) = Some doc ->
            (isValid doc = true <-> trim (doc_content doc) <> "")).
  { intros doc Hd. rewrite (Hflag doc Hd). apply positive_length_nonempty. }
  split; [|exact Hvalid].
  rewrite isContextAvailable_true. split.
  - intros (doc & Hd & Hv & Hc). exists doc. repeat split; try assumption.
    now apply (Hvalid doc Hd).
  - intros (doc & Hd & Hv & _ & Hc). exists doc. now repeat split.
Qed.

Lemma isContextAvailable_iff_witness :
  isContextAvailable (fst (run hello_env CallInitialize (initial, 0))) = true
  /\ reachable (run hello_env CallInitialize (initial, 0)).
Proof.
  assert (Hreach : reachable (run hello_env CallInitialize (initial, 0)))
    by (apply reachable_call, reachable_initial).
  split; [|exact Hreach].
  apply (proj1 (isContextAvailable_iff _ Hreach)).
  eexists. split; [reflexivity|].
  split; [reflexivity|]. split; discriminate.
Defined.

End AvailabilityFacts.

Section InitialisationFacts.
Import JS MCPContextManager Notions Samples.

(** C9, as the claim has it, fails: [initialize()] has no guard, so a
    second call processes the file again and the chunks get new ids;
    the fields after two calls are not the fields after one. *)
Lemma initialize_twice_changes_fields :
  let once := snd (initialize hello_env (initial, 0)) in
  let twice := snd (initialize hello_env once) in
  option_map (fun d => map id (chunks d)) (contextDocument (fst once))
  = Some ["11111111-1111-4111-8111-111111111111"]
  /\ option_map (fun d => map id (chunks d)) (contextDocument (fst twice))
     = Some ["22222222-2222-4222-8222-222222222222"]
  /\ fst twice <> fst once.
Proof.
  cbv zeta. vm_compute. repeat split. intros H. discriminate H.
Qed.

(** C9, amended. A call to [initialize()] never throws and leaves the
    initialized flag set, also when the document could not be loaded;
    from then on a query neither initialises again nor depends on the
    file system: it leaves the state as it is and answers the same in
    every environment.  [initialize()] itself runs the refresh on every
    call: a further call that finds the same file sets the flag again
    and leaves a document that differs at most in the ids of its
    chunks. *)
Theorem initialize_sets_flag (env : Env) (st : State) :
  exists st' : State,
    initialize env st = (Ok tt, st')
    /\ isInitialized (fst st') = true
    /\ (forall (env1 env2 : Env) (q : string),
          snd (getContextForQuery env1 q st') = st'
          /\ fst (getContextForQuery env1 q st') = fst (getContextForQuery env2 q st'))
    /\ (forall env' : Env,
          fs env' = fs env ->
          exists st'' : State,
            initialize env' st' = (Ok tt, st'')
            /\ isInitialized (fst st'') = true
            /\ same_document_but_ids (contextDocument (fst st''))
                                     (contextDocument (fst st'))).
Proof.
  exists (flag_set (refreshed env st)).
  split; [apply initialize_run|]. split; [reflexivity|]. split.
  - intros env1 env2 q. rewrite !getContextForQuery_run. cbn [fst snd].
    unfold after_query. cbn [flag_set fst isInitialized]. split; reflexivity.
  - intros env' Hfs. exists (flag_set (refreshed env' (flag_set (refreshed env st)))).
    split; [apply initialize_run|]. split; [reflexivity|].
    cbn [flag_set fst contextDocument].
    now apply refreshed_same_but_ids.
Qed.

Lemma initialize_sets_flag_witness :
  isInitialized (fst (snd (initialize absent_env (initial, 0)))) = true
  /\ contextDocument (fst (snd (initialize absent_env (initial, 0)))) = None
  /\ same_document_but_ids
       (contextDocument
          (fst (snd (initialize absent_env (snd (initialize absent_env (initial, 0)))))))
       (contextDocument (fst (snd (initialize absent_env (initial, 0))))).
Proof.
  destruct (initialize_sets_flag absent_env (initial, 0))
    as (st' & Hrun & Hflag & _ & Hagain).
  destruct (Hagain absent_env eq_refl) as (st'' & Hrun' & _ & Hsame).
  rewrite Hrun. cbn [snd]. rewrite Hrun'. cbn [snd].
  split; [exact Hflag|]. split; [|exact Hsame].
  rewrite initialize_run in Hrun. injection Hrun as <-. reflexivity.
Defined.

End InitialisationFacts.

(** ** Scenario A *)

Section ScenarioFacts.
Import JS ContextProcessor Samples.

(** C8. For the document of scenario A and the query
    "What languages do you like?", whatever ids are drawn, one chunk is
    selected, it belongs to the section "About", and the prompt built
    from the selection contains "Rust" and contains "Go". *)
Theorem scenarioA_selects_About (rnd : uuid_source) (n : nat) :
  let chunks := fst (processContextContent rnd scenarioA_document n) in
  let selected := extractRelevantChunks scenarioA_query chunks in
  length selected = 1
  /\ Forall (fun c => section c = Some "About") selected
  /\ map content selected = ["# About I like Rust and Go."]
  /\ includes (buildContextPrompt scenarioA_query selected) "Rust" = true
  /\ includes (buildContextPrompt scenarioA_query selected) "Go" = true.
Proof.
  cbv zeta. vm_compute. repeat split. repeat constructor.
Qed.

End ScenarioFacts.

(** ** Splitting on whitespace, trimming, joining *)

Arguments JS.is_space : simpl never.

Section WordFacts.
Import JS Notions.

Lemma split_ws_cons (c : ascii) (s : string) :
  split_ws (String c s)
  = if is_space c then
      match s with
      | String d _ => if is_space d then split_ws s else "" :: split_ws s
      | EmptyString => "" :: split_ws s
      end
    else match split_ws s with
         | w :: r => String c w :: r
         | [] => [String c ""]
         end.
Proof. reflexivity. Qed.

Lemma split_ws_not_nil (s : string) : split_ws s <> [].
Proof.
  induction s as [|c s IH]; [discriminate|].
  rewrite split_ws_cons. destruct (is_space c).
  - destruct s as [|d s']; [discriminate|]. destruct (is_space d); [exact IH | discriminate].
  - destruct (split_ws s); discriminate.
Qed.

(** A string that begins with whitespace splits into an empty first
    piece and the pieces of what follows the whitespace run. *)
Lemma split_ws_space (c : ascii) (s : string) :
  is_space c = true -> split_ws (String c s) = "" :: split_ws (trimStart s).
Proof.
  revert c. induction s as [|d s IH]; intros c Hc; rewrite split_ws_cons, Hc.
  - reflexivity.
  - cbn [trimStart]. destruct (is_space d) eqn:Hd; [now apply IH | reflexivity].
Qed.

Lemma split_ws_nonspace (c : ascii) (s : string) :
  is_space c = false ->
  exists h t, split_ws s = h :: t /\ split_ws (String c s) = String c h :: t.
Proof.
  intros Hc. rewrite split_ws_cons, Hc.
  destruct (split_ws s) as [|h t] eqn:E; [now elim (split_ws_not_nil s)|].
  now exists h, t.
Qed.

(** A piece of whitespace-free text in front of whitespace is a piece of
    the split. *)
Lemma split_ws_word_then_space (w : string) (c : ascii) (s : string) :
  no_space w = true -> is_space c = true ->
  split_ws (w ++ String c s) = w :: split_ws (trimStart s).
Proof.
  intros Hw Hc. induction w as [|x w IH]; cbn [append].
  - now apply split_ws_space.
  - cbn [no_space] in Hw. apply andb_true_iff in Hw. destruct Hw as [Hx Hw].
    apply negb_true_iff in Hx.
    destruct (split_ws_nonspace x (w ++ String c s) Hx) as (h & t & E & ->).
    rewrite (IH Hw) in E. now injection E as <- <-.
Qed.

Lemma split_ws_no_space (s : string) :
  Forall (fun w => no_space w = true) (split_ws s).
Proof.
  induction s as [|c s IH]; [repeat constructor|].
  rewrite split_ws_cons. destruct (is_space c) eqn:Hc.
  - destruct s as [|d s']; [repeat constructor|].
    destruct (is_space d); [exact IH | now constructor].
  - destruct (split_ws s) as [|h t]; [repeat constructor; cbn; now rewrite Hc|].
    inversion IH as [|? ? Hh Ht]; subst. constructor; [|exact Ht].
    cbn. now rewrite Hc, Hh.
Qed.

(** Only the first and the last piece of a split can be empty. *)
Lemma split_ws_shape (s : string) :
  exists h t,
    split_ws s = h :: t
    /\ (forall j, S j < length t -> nth j t "" <> "")
    /\ (forall c s', s = String c s' -> is_space c = false -> h <> "").
Proof.
  induction s as [|c s IH].
  - exists "", []. repeat split.
    + intros j Hj. simpl in Hj. lia.
    + intros c s' H. discriminate H.
  - destruct IH as (h & t & E & Ht & Hh).
    rewrite split_ws_cons. destruct (is_space c) eqn:Hc.
    + destruct s as [|d s'].
      * exists "", [""]. repeat split.
        -- intros j Hj. simpl in Hj. lia.
        -- intros c0 s0 H. injection H as <- <-. congruence.
      * destruct (is_space d) eqn:Hd.
        -- exists h, t. repeat split; [exact E | exact Ht |].
           intros c0 s0 H. injection H as <- <-. congruence.
        -- exists "", (h :: t). rewrite E. repeat split.
           ++ intros [|j] Hj; cbn [nth].
              ** now apply (Hh d s').
              ** apply Ht. simpl in Hj. lia.
           ++ intros c0 s0 H. injection H as <- <-. congruence.
    + rewrite E. exists (String c h), t. repeat split; [exact Ht|].
      intros; discriminate.
Qed.

Lemma split_ws_interior (s : string) (j : nat) :
  0 < j -> S j < length (split_ws s) -> word_ok (nth j (split_ws s) "").
Proof.
  intros Hj Hlen. destruct (split_ws_shape s) as (h & t & E & Ht & _).
  pose proof (split_ws_no_space s) as Hns. rewrite E in *.
  destruct j as [|j]; [lia|]. cbn [nth]. simpl in Hlen. split.
  - apply Ht. lia.
  - inversion Hns as [|? ? _ Hall]; subst.
    rewrite Forall_forall in Hall. apply Hall. apply nth_In. lia.
Qed.

Lemma word_ok_head (w : string) :
  word_ok w -> exists c r, w = String c r /\ is_space c = false.
Proof.
  intros [Hne Hns]. destruct w as [|c r]; [now elim Hne|].
  exists c, r. split; [reflexivity|]. cbn in Hns.
  apply andb_true_iff in Hns. now apply negb_true_iff.
Qed.

End WordFacts.

Section TrimFacts.
Import JS Notions.

Lemma trimEnd_cons_nonspace (c : ascii) (s : string) :
  is_space c = false -> trimEnd (String c s) = String c (trimEnd s).
Proof. intros Hc. cbn [trimEnd]. now rewrite Hc. Qed.

Lemma trim_cons_nonspace (c : ascii) (s : string) :
  is_space c = false -> trim (String c s) = String c (trimEnd s).
Proof.
  intros Hc. unfold trim. cbn [trimStart]. rewrite Hc.
  now apply trimEnd_cons_nonspace.
Qed.

Lemma trim_cons_space (c : ascii) (s : string) :
  is_space c = true -> trim (String c s) = trim s.
Proof. intros Hc. unfold trim. cbn [trimStart]. now rewrite Hc. Qed.

(** Text with a character that is not whitespace does not trim to the
    empty string. *)
Lemma trim_not_empty (pre post : string) (c : ascii) :
  is_space c = false -> trim (pre ++ String c post) <> "".
Proof.
  intros Hc. induction pre as [|x pre IH]; cbn [append].
  - rewrite trim_cons_nonspace by exact Hc. discriminate.
  - destruct (is_space x) eqn:Hx.
    + now rewrite trim_cons_space.
    + rewrite trim_cons_nonspace by exact Hx. discriminate.
Qed.

(** [trimEnd] leaves alone what is in front of text it leaves alone. *)
Lemma trimEnd_append_fixed (a b : string) :
  b <> "" -> trimEnd b = b -> trimEnd (a ++ b) = a ++ b.
Proof.
  intros Hne Hb. induction a as [|x a IH]; cbn [append]; [exact Hb|].
  cbn [trimEnd]. rewrite IH.
  destruct (a ++ b) eqn:E.
  - destruct a; [cbn in E; now elim Hne | discriminate E].
  - cbn [is_empty]. now rewrite andb_false_r.
Qed.

Lemma trimEnd_no_space (w : string) : no_space w = true -> trimEnd w = w.
Proof.
  induction w as [|c w IH]; intros Hw; [reflexivity|].
  cbn in Hw. apply andb_true_iff in Hw. destruct Hw as [Hc Hw].
  apply negb_true_iff in Hc. rewrite trimEnd_cons_nonspace by exact Hc.
  now rewrite IH.
Qed.

(** [trimEnd] keeps a prefix it would leave alone. *)
Lemma trimEnd_keeps_prefix (a b : string) :
  a <> "" -> trimEnd a = a -> exists y, trimEnd (a ++ b) = a ++ y.
Proof.
  induction a as [|x a IH]; intros Hne Ha; [now elim Hne|].
  cbn [append trimEnd]. cbn [trimEnd] in Ha.
  destruct (is_space x && is_empty (trimEnd a)) eqn:Hx; [discriminate Ha|].
  injection Ha as Ha.
  destruct a as [|x' a'].
  - cbn in Hx. rewrite andb_true_r in Hx. cbn [append].
    rewrite Hx. cbn [andb]. now exists (trimEnd b).
  - destruct (IH ltac:(discriminate) Ha) as (y & E). rewrite E.
    cbn [append is_empty]. rewrite andb_false_r. now exists y.
Qed.

Lemma trimStart_keeps_suffix (a b : string) (c : ascii) (r : string) :
  b = String c r -> is_space c = false -> exists x, trimStart (a ++ b) = x ++ b.
Proof.
  intros -> Hc. induction a as [|y a IH]; cbn [append].
  - exists "". cbn [trimStart]. now rewrite Hc.
  - cbn [trimStart]. destruct (is_space y); [exact IH|].
    now exists (String y a).
Qed.

Lemma join_cons_cons (sep x y : string) (l : list string) :
  join sep (x :: y :: l) = x ++ sep ++ join sep (y :: l).
Proof. reflexivity. Qed.

Lemma join_app (sep : string) (a b : list string) :
  a <> [] -> b <> [] ->
  join sep (a ++ b)%list = join sep a ++ sep ++ join sep b.
Proof.
  intros Ha Hb. induction a as [|x a IH]; [now elim Ha|].
  destruct a as [|y a].
  - destruct b as [|z b]; [now elim Hb | reflexivity].
  - change ((x :: y :: a) ++ b)%list with (x :: y :: (a ++ b)%list).
    rewrite !join_cons_cons.
    change (y :: (a ++ b)%list) with ((y :: a) ++ b)%list.
    rewrite IH by discriminate. now rewrite !append_assoc.
Qed.

(** The single-space join of words begins with a character that is not
    whitespace and is left alone by [trimEnd]. *)
Lemma join_words_firm (ws : list string) :
  ws <> [] -> Forall word_ok ws ->
  (exists c r, join " " ws = String c r /\ is_space c = false)
  /\ trimEnd (join " " ws) = join " " ws.
Proof.
  intros Hne Hall. induction ws as [|w ws IH]; [now elim Hne|].
  inversion Hall as [|? ? Hw Hws]; subst.
  destruct (word_ok_head w Hw) as (c & r & -> & Hc).
  destruct ws as [|w' ws].
  - split; [now exists c, r|]. apply trimEnd_no_space, Hw.
  - destruct (IH ltac:(discriminate) Hws) as [(c' & r' & E & Hc') Hfix].
    rewrite join_cons_cons. split.
    + cbn [append]. now eexists c, _.
    + apply trimEnd_append_fixed.
      * discriminate.
      * apply (trimEnd_append_fixed " "); [rewrite E; discriminate | exact Hfix].
Qed.

(** Words at the front of a joined array stay at the front of the trimmed
    text. *)
Lemma trim_join_prefix (ws rest : list string) :
  ws <> [] -> Forall word_ok ws ->
  exists y, trim (join " " (ws ++ rest)%list) = join " " ws ++ y.
Proof.
  intros Hne Hall.
  destruct (join_words_firm ws Hne Hall) as [(c & r & E & Hc) Hfix].
  assert (HJ : join " " ws <> "") by (rewrite E; discriminate).
  destruct rest as [|z rest].
  - rewrite app_nil_r. exists "". rewrite append_empty_r.
    unfold trim. rewrite E. cbn [trimStart]. rewrite Hc, <- E. exact Hfix.
  - rewrite join_app by (assumption || discriminate).
    destruct (trimEnd_keeps_prefix _ (" " ++ join " " (z :: rest)) HJ Hfix)
      as (y & Hy).
    exists y. rewrite <- Hy. unfold trim. f_equal.
    rewrite E. cbn [append trimStart]. now rewrite Hc.
Qed.

(** Words at the back of a joined array stay at the back of the trimmed
    text. *)
Lemma trim_join_suffix (front ws : list string) :
  ws <> [] -> Forall word_ok ws ->
  exists x, trim (join " " (front ++ ws)%list) = x ++ join " " ws.
Proof.
  intros Hne Hall.
  destruct (join_words_firm ws Hne Hall) as [(c & r & E & Hc) Hfix].
  assert (HJ : join " " ws <> "") by (rewrite E; discriminate).
  assert (Hshape : exists a, join " " (front ++ ws)%list = a ++ join " " ws).
  { destruct front as [|z front].
    - now exists "".
    - rewrite join_app by (assumption || discriminate).
      exists (join " " (z :: front) ++ " "). now rewrite append_assoc. }
  destruct Hshape as (a & ->).
  destruct (trimStart_keeps_suffix a _ c r E Hc) as (x & Hx).
  exists x. unfold trim. rewrite Hx. now apply trimEnd_append_fixed.
Qed.

End TrimFacts.

(** ** The chunking loop *)

Section SliceFacts.
Import JS.
Context {A : Type}.

Lemma slice_window (i m : nat) (l : list A) :
  slice i (i + m) l = firstn m (skipn i l).
Proof. unfold slice. f_equal. lia. Qed.

Lemma firstn_add (a b : nat) (l : list A) :
  firstn (a + b) l = (firstn a l ++ firstn b (skipn a l))%list.
Proof.
  revert l. induction a as [|a IH]; intros l; [reflexivity|].
  destruct l as [|x l]; cbn [Nat.add firstn skipn app].
  - now rewrite firstn_nil.
  - now rewrite IH.
Qed.

Lemma nth_in_window (i m idx : nat) (l : list A) (d : A) :
  i <= idx -> idx < i + m -> idx < length l ->
  In (nth idx l d) (firstn m (skipn i l)).
Proof.
  intros Hlo Hhi Hlen.
  replace (nth idx l d) with (nth (idx - i) (firstn m (skipn i l)) d).
  - apply nth_In. rewrite length_firstn, length_skipn. lia.
  - rewrite nth_firstn.
    destruct (idx - i <? m) eqn:E; [|apply Nat.ltb_ge in E; lia].
    rewrite nth_skipn. f_equal. lia.
Qed.

Lemma window_forall (P : A -> Prop) (i m : nat) (l : list A) (d : A) :
  (forall idx, i <= idx -> idx < i + m -> idx < length l -> P (nth idx l d)) ->
  Forall P (firstn m (skipn i l)).
Proof.
  intros H. apply Forall_forall. intros x Hx.
  destruct (In_nth _ _ d Hx) as (j & Hj & <-).
  rewrite length_firstn, length_skipn in Hj.
  rewrite nth_firstn.
  destruct (j <? m) eqn:E; [|apply Nat.ltb_ge in E; lia].
  apply Nat.ltb_lt in E. rewrite nth_skipn. apply H; lia.
Qed.

End SliceFacts.

Section LoopFacts.
Import JS ContextProcessor Notions.

Variables (rnd : uuid_source) (t : string) (words : list string).
Variables (size ov : nat).

Lemma chunk_loop_past_end (fuel i n : nat) :
  length words <= i ->
  chunk_loop fuel rnd t words size ov i n = ([], n).
Proof.
  intros Hi. destruct fuel as [|fuel]; [reflexivity|]. cbn [chunk_loop].
  destruct (i <? length words) eqn:E; [|reflexivity].
  apply Nat.ltb_lt in E. lia.
Qed.

(** Once the fuel covers the words that are left, more fuel changes
    nothing: the loop ends by its own test. *)
Lemma chunk_loop_fuel (fuel : nat) :
  ov < size ->
  forall fuel' i n,
    length words - i <= fuel -> length words - i <= fuel' ->
    chunk_loop fuel rnd t words size ov i n
    = chunk_loop fuel' rnd t words size ov i n.
Proof.
  intros Hstep. induction fuel as [|fuel IH]; intros fuel' i n Hf Hf'.
  - rewrite (chunk_loop_past_end fuel') by lia. reflexivity.
  - destruct fuel' as [|fuel'].
    + rewrite (chunk_loop_past_end (S fuel)) by lia. reflexivity.
    + cbn [chunk_loop]. destruct (i <? length words) eqn:E; [|reflexivity].
      apply Nat.ltb_lt in E.
      rewrite !(IH fuel' (i + (size - ov))) by lia. reflexivity.
Qed.

(** Where the loop emits a chunk for every window that has a successor,
    the k-th chunk that is not the last one is cut from the k-th
    window, and the next window starts inside the array. *)
Lemma chunk_loop_nth (fuel : nat) :
  (forall j, j + (size - ov) < length words -> window_text words size j <> "") ->
  forall i n k c,
    nth_error (fst (chunk_loop fuel rnd t words size ov i n)) k = Some c ->
    S k < length (fst (chunk_loop fuel rnd t words size ov i n)) ->
    content c = window_text words size (i + k * (size - ov))
    /\ keywords c = extractKeywords (content c)
    /\ i + S k * (size - ov) < length words.
Proof.
  intros Hwin. induction fuel as [|fuel IH]; intros i n k c Hnth Hlen.
  - destruct k; discriminate Hnth.
  - cbn [chunk_loop] in Hnth, Hlen.
    destruct (i <? length words) eqn:Ei; [|destruct k; discriminate Hnth].
    fold (window_text words size i) in Hnth, Hlen.
    assert (Hnext : forall m,
               fst (chunk_loop fuel rnd t words size ov (i + (size - ov)) m) <> [] ->
               i + (size - ov) < length words).
    { intros m Hm. destruct (Nat.lt_ge_cases (i + (size - ov)) (length words))
        as [Hlt | Hge]; [exact Hlt|].
      rewrite chunk_loop_past_end in Hm by exact Hge. now elim Hm. }
    destruct (0 <? String.length (window_text words size i)) eqn:Ew.
    + destruct (chunk_loop fuel rnd t words size ov (i + (size - ov)) (S n))
        as [rest n'] eqn:Erest.
      assert (Hrest : rest = fst (chunk_loop fuel rnd t words size ov
                                    (i + (size - ov)) (S n)))
        by now rewrite Erest.
      cbn [fst] in Hnth, Hlen. destruct k as [|k].
      * injection Hnth as <-. cbn [content keywords].
        rewrite Nat.mul_0_l, Nat.add_0_r. repeat split.
        rewrite Nat.mul_1_l. apply (Hnext (S n)). rewrite <- Hrest.
        destruct rest; [cbn in Hlen; lia | discriminate].
      * cbn [nth_error] in Hnth. cbn [length] in Hlen. rewrite Hrest in Hnth, Hlen.
        destruct (IH _ _ _ _ Hnth ltac:(lia)) as (Hc & Hk & Hi).
        replace (i + S k * (size - ov)) with (i + (size - ov) + k * (size - ov)) by lia.
        replace (i + S (S k) * (size - ov))
          with (i + (size - ov) + S k * (size - ov)) by lia.
        now repeat split.
    + exfalso.
      assert (Hlt : i + (size - ov) < length words).
      { apply (Hnext n). intros E. rewrite E in Hnth. destruct k; discriminate Hnth. }
      apply Hwin, positive_length_nonempty in Hlt.
      rewrite Hlt in Ew. discriminate Ew.
Qed.

End LoopFacts.

Section OverlapFacts.
Import JS ContextProcessor Notions Samples.

Section Windows.
Variables (words : list string) (size ov : nat).
Hypothesis Hwords :
  forall j, 0 < j -> S j < length words -> word_ok (nth j words "").
Hypothesis Hov : 0 < ov.
Hypothesis Hhalf : 2 * ov <= size.
Hypothesis Hstep : 2 <= size - ov.

(** A window that has a successor holds a word. *)
Lemma window_with_successor_nonempty (j : nat) :
  j + (size - ov) < length words -> window_text words size j <> "".
Proof.
  intros Hj. unfold window_text. rewrite slice_window.
  set (idx := if j =? 0 then 1 else j).
  assert (Hidx : j <= idx /\ idx < j + size /\ 0 < idx /\ S idx < length words).
  { unfold idx. destruct (j =? 0) eqn:E.
    - apply Nat.eqb_eq in E. lia.
    - apply Nat.eqb_neq in E. lia. }
  destruct Hidx as (H1 & H2 & H3 & H4).
  destruct (word_ok_head _ (Hwords idx H3 H4)) as (c & r & Ew & Hc).
  assert (Hin : In (nth idx words "") (firstn size (skipn j words)))
    by (apply nth_in_window; lia).
  destruct (join_contains " " _ _ Hin) as (pre & post & E).
  rewrite E, Ew. cbn [append]. now apply trim_not_empty.
Qed.

(** Two successive windows, the second of which has a successor, share
    exactly the last [ov] words of the first, which are the first [ov]
    of the second. *)
Lemma successive_windows_share (i : nat) :
  i + 2 * (size - ov) < length words ->
  exists a o b,
    slice i (i + size) words = (a ++ o)%list
    /\ slice (i + (size - ov)) (i + (size - ov) + size) words = (o ++ b)%list
    /\ length a = size - ov
    /\ length o = ov
    /\ Forall word_ok o.
Proof.
  intros Hi.
  exists (firstn (size - ov) (skipn i words)),
         (firstn ov (skipn (i + (size - ov)) words)),
         (firstn (size - ov) (skipn (i + (size - ov) + ov) words)).
  rewrite !slice_window. repeat split.
  - transitivity (firstn ((size - ov) + ov) (skipn i words)); [f_equal; lia|].
    rewrite firstn_add, skipn_skipn. do 3 f_equal. lia.
  - transitivity (firstn (ov + (size - ov)) (skipn (i + (size - ov)) words));
      [f_equal; lia|].
    rewrite firstn_add, skipn_skipn. do 3 f_equal. lia.
  - rewrite length_firstn, length_skipn. lia.
  - rewrite length_firstn, length_skipn. lia.
  - apply window_forall with (d := ""). intros idx H1 H2 H3.
    apply Hwords; lia.
Qed.

End Windows.

(** [createChunksFromSection] runs the loop to its end: any larger fuel
    gives the same chunks. *)
Lemma createChunksFromSection_fuel (rnd : uuid_source) (sec : MdSection)
    (n fuel : nat) :
  length (split_ws (sec_content sec)) <= fuel ->
  chunk_loop fuel rnd (title sec) (split_ws (sec_content sec))
             CONTEXT_CONSTANTS.CHUNK_SIZE CONTEXT_CONSTANTS.CHUNK_OVERLAP 0 n
  = createChunksFromSection rnd sec n.
Proof.
  intros Hfuel. unfold createChunksFromSection. apply chunk_loop_fuel.
  - unfold CONTEXT_CONSTANTS.CHUNK_SIZE, CONTEXT_CONSTANTS.CHUNK_OVERLAP. lia.
  - lia.
  - lia.
Qed.

(** Scenario E: 1200 words give the windows at words 0, 450 and 900. *)
Example long_section_chunks :
  length (fst (createChunksFromSection sample_uuids long_section 0)) = 3.
Proof. vm_compute. reflexivity. Qed.

(** C5. Within a section, take two consecutive chunks of which the second
    is not the section's last chunk.  They are cut from the windows of
    W = 500 words that start at words 450 k and 450 (k + 1) of the
    section; the first window is [a ++ o] and the second [o ++ b] with
    450 words in [a] and O = 50 words in [o]; so the text of the first
    chunk ends with, and the text of the second begins with, these 50
    words joined by single spaces. *)
Theorem consecutive_chunks_overlap (rnd : uuid_source) (sec : MdSection)
    (n k : nat) :
  let words := split_ws (sec_content sec) in
  let cs := fst (createChunksFromSection rnd sec n) in
  let W := CONTEXT_CONSTANTS.CHUNK_SIZE in
  let O := CONTEXT_CONSTANTS.CHUNK_OVERLAP in
  k + 2 < length cs ->
  W = 500 /\ O = 50
  /\ exists c1 c2 a o b,
       nth_error cs k = Some c1
       /\ nth_error cs (S k) = Some c2
       /\ slice (k * (W - O)) (k * (W - O) + W) words = (a ++ o)%list
       /\ slice (S k * (W - O)) (S k * (W - O) + W) words = (o ++ b)%list
       /\ length a = W - O
       /\ length o = O
       /\ Forall word_ok o
       /\ content c1 = trim (join " " (a ++ o)%list)
       /\ content c2 = trim (join " " (o ++ b)%list)
       /\ (exists x, content c1 = x ++ join " " o)
       /\ (exists y, content c2 = join " " o ++ y).
Proof.
  intros words cs W O Hk. split; [reflexivity|]. split; [reflexivity|].
  assert (HO : 0 < O) by (unfold O, CONTEXT_CONSTANTS.CHUNK_OVERLAP; lia).
  assert (Hhalf : 2 * O <= W)
    by (unfold O, W, CONTEXT_CONSTANTS.CHUNK_OVERLAP, CONTEXT_CONSTANTS.CHUNK_SIZE; lia).
  assert (Hstep : 2 <= W - O)
    by (unfold O, W, CONTEXT_CONSTANTS.CHUNK_OVERLAP, CONTEXT_CONSTANTS.CHUNK_SIZE; lia).
  assert (Hwords : forall j, 0 < j -> S j < length words -> word_ok (nth j words ""))
    by (intros j; apply split_ws_interior).
  pose proof (window_with_successor_nonempty words W O Hwords HO Hhalf Hstep) as Hwin.
  unfold cs, createChunksFromSection in Hk |- *. fold words W O in Hk |- *.
  set (loop := fst (chunk_loop (length words) rnd (title sec) words W O 0 n)) in *.
  destruct (nth_error loop k) as [c1|] eqn:E1;
    [|apply nth_error_None in E1; lia].
  destruct (nth_error loop (S k)) as [c2|] eqn:E2;
    [|apply nth_error_None in E2; lia].
  destruct (chunk_loop_nth rnd (title sec) words W O (length words) Hwin
              0 n k c1 E1 ltac:(fold loop; lia)) as (Hc1 & _ & _).
  destruct (chunk_loop_nth rnd (title sec) words W O (length words) Hwin
              0 n (S k) c2 E2 ltac:(fold loop; lia)) as (Hc2 & _ & Hlen).
  cbn [Nat.add] in Hc1, Hc2, Hlen.
  destruct (successive_windows_share words W O Hwords HO Hhalf Hstep
              (k * (W - O)) ltac:(lia)) as (a & o & b & Ha & Hb & Hla & Hlo & Hall).
  replace (k * (W - O) + (W - O)) with (S k * (W - O)) in Hb by lia.
  exists c1, c2, a, o, b.
  unfold window_text in Hc1, Hc2. rewrite Ha in Hc1. rewrite Hb in Hc2.
  assert (Hne : o <> []) by (intros ->; cbn in Hlo; lia).
  repeat split; try assumption.
  - rewrite Hc1. now apply trim_join_suffix.
  - rewrite Hc2. now apply trim_join_prefix.
Qed.

Lemma consecutive_chunks_overlap_witness :
  exists c1 c2 o,
    nth_error (fst (createChunksFromSection sample_uuids long_section 0)) 0 = Some c1
    /\ nth_error (fst (createChunksFromSection sample_uuids long_section 0)) 1 = Some c2
    /\ length o = 50
    /\ (exists x, content c1 = x ++ join " " o)
    /\ (exists y, content c2 = join " " o ++ y).
Proof.
  assert (Hk : 0 + 2 < length (fst (createChunksFromSection sample_uuids long_section 0)))
    by (vm_compute; lia).
  destruct (consecutive_chunks_overlap sample_uuids long_section 0 0 Hk)
    as (_ & _ & c1 & c2 & a & o & b & H1 & H2 & _ & _ & _ & Ho & _ & _ & _ & Hx & Hy).
  exists c1, c2, o. repeat split; assumption.
Defined.

End OverlapFacts.

(** ** Header lines *)

Section HeaderFacts.
Import JS ContextProcessor Notions Samples.

Lemma span_hashes_spec (s : string) :
  s = hash_run (fst (span_hashes s)) ++ snd (span_hashes s).
Proof.
  induction s as [|c s IH]; [reflexivity|]. cbn [span_hashes].
  destruct (Ascii.eqb c "#") eqn:E; [|reflexivity].
  apply Ascii.eqb_eq in E. subst c.
  destruct (span_hashes s) as [k r]. cbn [fst snd hash_run append] in *.
  now rewrite <- IH.
Qed.

Lemma hash_run_word (k : nat) : 1 <= k -> word_ok (hash_run k).
Proof.
  intros Hk. split.
  - destruct k; [lia | discriminate].
  - clear Hk. induction k as [|k IH]; [reflexivity|]. cbn [hash_run no_space].
    now rewrite IH.
Qed.

(** A header line is its ['#'] run, one to six long, then whitespace,
    then what [match_header] leaves. *)
Lemma is_header_shape (L : string) :
  is_header L = true ->
  exists k c tail remainder,
    fst (span_hashes L) = k /\ 1 <= k <= 6
    /\ L = hash_run k ++ String c tail
    /\ is_space c = true
    /\ match_header L = Some remainder
    /\ remainder = trimStart tail.
Proof.
  unfold is_header, match_header. intros H.
  pose proof (span_hashes_spec L) as HL.
  destruct (span_hashes L) as [k r]. cbn [fst snd] in HL.
  destruct ((1 <=? k) && (k <=? 6)) eqn:Hk; [|discriminate H].
  apply andb_true_iff in Hk. destruct Hk as [H1 H6].
  apply Nat.leb_le in H1, H6.
  destruct r as [|c tail]; [discriminate H|].
  destruct (is_space c) eqn:Hc; [|discriminate H].
  exists k, c, tail, (trimStart (String c tail)).
  repeat split; try assumption. cbn [trimStart]. now rewrite Hc.
Qed.

Lemma headed_content_not_blank (L : string) (sec : MdSection) :
  is_header L = true -> headed L sec -> is_empty (trim (sec_content sec)) = false.
Proof.
  intros HL (_ & rest & ->).
  destruct (is_header_shape L HL) as (k & c & tail & rem & _ & Hk & -> & _).
  apply is_empty_false. destruct k as [|k]; [lia|].
  cbn [hash_run append]. apply (trim_not_empty "" _ "#"). reflexivity.
Qed.

(** The loop over the lines keeps the sections it has, and every header
    line it meets ends up heading the current section or a stored one. *)
Lemma fold_header_step (lines : list string) :
  forall (sections : list MdSection) (cur : MdSection),
    let out := fold_left header_step lines (sections, cur) in
    (forall s, In s sections -> In s (fst out))
    /\ (forall L0, is_header L0 = true -> headed L0 cur ->
          headed L0 (snd out) \/ exists s, In s (fst out) /\ headed L0 s)
    /\ (forall L, In L lines -> is_header L = true ->
          headed L (snd out) \/ exists s, In s (fst out) /\ headed L s).
Proof.
  induction lines as [|l lines IH]; intros sections cur; cbn [fold_left].
  - cbv zeta. cbn [fst snd]. repeat split; auto. intros L [].
  - set (st1 := header_step (sections, cur) l).
    destruct (IH (fst st1) (snd st1)) as (Hkeep & Hcur & Hlines).
    replace (fst st1, snd st1) with st1 in * by now destruct st1.
    cbv zeta in *.
    assert (Hmono : forall s, In s sections -> In s (fst st1)).
    { intros s Hs. unfold st1, header_step.
      destruct (is_header l); [|exact Hs]. cbn [fst].
      destruct (is_empty _); [exact Hs | apply in_or_app; now left]. }
    repeat split.
    + intros s Hs. now apply Hkeep, Hmono.
    + intros L0 HL0 Hhead.
      destruct (is_header l) eqn:Hl.
      * right. exists cur. split; [|exact Hhead]. apply Hkeep.
        unfold st1, header_step. rewrite Hl. cbn [fst].
        rewrite (headed_content_not_blank L0 cur HL0 Hhead).
        apply in_or_app. right. now left.
      * apply (Hcur L0 HL0). unfold st1, header_step. rewrite Hl. cbn [snd].
        destruct Hhead as (Ht & rest & Hrest). split; [exact Ht|].
        cbn [sec_content]. exists (rest ++ l ++ nl). rewrite Hrest.
        now rewrite !append_assoc.
    + intros L [<- | HL] Hhdr.
      * apply (Hcur l Hhdr). unfold st1, header_step. rewrite Hhdr. cbn [snd].
        split; [reflexivity|]. exists "". cbn [sec_content].
        now rewrite append_empty_r.
      * now apply Hlines.
Qed.

(** Every header line of a document heads one of its sections. *)
Lemma header_line_has_section (doc L : string) :
  In L (split_char LF doc) -> is_header L = true ->
  exists sec, In sec (splitByMarkdownHeaders doc) /\ headed L sec.
Proof.
  intros HL Hhdr. unfold splitByMarkdownHeaders.
  pose proof (fold_header_step (split_char LF doc) []
                {| title := ""; sec_content := "" |}) as H.
  cbv zeta in H.
  destruct (fold_left header_step (split_char LF doc) _) as [sections cur].
  cbn [fst snd] in H. destruct H as (_ & _ & Hlines).
  assert (Hres : forall l : list MdSection, l <> [] ->
            match l with
            | [] => [{| title := "Content"; sec_content := doc |}]
            | _ :: _ => l
            end = l) by (intros [|x l] Hl; [now elim Hl | reflexivity]).
  destruct (Hlines L HL Hhdr) as [Hcur | (s & Hs & Hhead)].
  - exists cur. split; [|exact Hcur].
    rewrite (headed_content_not_blank L cur Hhdr Hcur).
    rewrite Hres by (destruct sections; discriminate).
    apply in_or_app. right. now left.
  - exists s. split; [|exact Hhead].
    destruct (is_empty (trim (sec_content cur))).
    + rewrite Hres by (intros ->; contradiction). exact Hs.
    + rewrite Hres by (destruct sections; discriminate).
      apply in_or_app. now left.
Qed.

End HeaderFacts.

Section FirstChunkFacts.
Import JS ContextProcessor Notions Samples.

Lemma trimStart_append (a b : string) :
  trimStart (a ++ b) = trimStart (trimStart a ++ b).
Proof.
  induction a as [|c a IH]; [reflexivity|]. cbn [append trimStart].
  destruct (is_space c) eqn:Hc; [exact IH|].
  cbn [append trimStart]. now rewrite Hc.
Qed.

(** The pieces of a section that a header line heads: the ['#'] run, then
    the pieces of the title text, the line feed and the body. *)
Lemma split_ws_headed (L rest : string) :
  is_header L = true ->
  exists k remainder,
    fst (span_hashes L) = k /\ 1 <= k <= 6
    /\ match_header L = Some remainder
    /\ split_ws (L ++ nl ++ rest)
       = hash_run k :: split_ws (trimStart (remainder ++ nl ++ rest)).
Proof.
  intros HL.
  destruct (is_header_shape L HL) as (k & c & tail & rem & Hk & Hr & -> & Hc & Hm & ->).
  exists k, (trimStart tail). repeat split; try assumption; try lia.
  rewrite append_assoc. cbn [append].
  rewrite split_ws_word_then_space by (apply hash_run_word; lia) || exact Hc.
  now rewrite trimStart_append.
Qed.

(** Text of single-spaced words in front of whitespace splits into these
    words and the pieces of what follows. *)
Lemma split_ws_single_spaced (ws : list string) (c : ascii) (s : string) :
  ws <> [] -> Forall word_ok ws -> is_space c = true ->
  split_ws (join " " ws ++ String c s) = (ws ++ split_ws (trimStart s))%list.
Proof.
  intros Hne Hall Hc. induction ws as [|w ws IH]; [now elim Hne|].
  inversion Hall as [|? ? Hw Hws]; subst. destruct ws as [|w' ws].
  - cbn [join String.concat app]. apply split_ws_word_then_space; [apply Hw | exact Hc].
  - rewrite join_cons_cons, !append_assoc. cbn [append].
    rewrite split_ws_word_then_space by (apply Hw || reflexivity).
    destruct (join_words_firm (w' :: ws) ltac:(discriminate) Hws)
      as [(d & r & E & Hd) _].
    rewrite E. cbn [append trimStart]. rewrite Hd.
    change (String d (r ++ String c s)) with (String d r ++ String c s).
    rewrite <- E, IH by (discriminate || assumption). reflexivity.
Qed.

(** When the first piece of a section is a word, the loop's first
    iteration emits a chunk: the text of the first window, which begins
    with that word. *)
Lemma chunk_loop_first (rnd : uuid_source) (t : string) (h : string)
    (tl : list string) (size ov fuel n : nat) :
  word_ok h -> 0 < size ->
  exists c cs y,
    fst (chunk_loop (S fuel) rnd t (h :: tl) size ov 0 n) = c :: cs
    /\ content c = window_text (h :: tl) size 0
    /\ keywords c = extractKeywords (content c)
    /\ content c = h ++ y.
Proof.
  intros Hh Hsize.
  assert (Htext : exists y, window_text (h :: tl) size 0 = h ++ y).
  { unfold window_text. rewrite slice_window. cbn [skipn].
    destruct size as [|m]; [lia|]. cbn [firstn].
    apply (trim_join_prefix [h] (firstn m tl)); [discriminate | now constructor]. }
  destruct Htext as (y & Hy).
  cbn [chunk_loop]. change (0 <? length (h :: tl)) with true. cbv iota.
  fold (window_text (h :: tl) size 0).
  assert (Hpos : (0 <? String.length (window_text (h :: tl) size 0)) = true).
  { apply positive_length_nonempty. rewrite Hy.
    destruct Hh as [Hne _]. destruct h; [now elim Hne | discriminate]. }
  rewrite Hpos.
  destruct (chunk_loop fuel rnd t (h :: tl) size ov (0 + (size - ov)) (S n))
    as [rest n'].
  eexists _, rest, y. cbn [fst content keywords]. repeat split. exact Hy.
Qed.

End FirstChunkFacts.

Section HeaderChunkFacts.
Import JS ContextProcessor Notions Samples.

(** C10, as the claim has it, fails: the chunk text is rebuilt from the
    words of the section with single spaces between them, so a header
    line with a wider gap is not in the text of the first chunk. *)
Lemma header_line_not_verbatim :
  let doc := "#  A" in
  In "#  A" (split_char LF doc)
  /\ is_header "#  A" = true
  /\ splitByMarkdownHeaders doc = [{| title := "A"; sec_content := "#  A" ++ nl |}]
  /\ map content (fst (processContextContent sample_uuids doc 0)) = ["# A"]
  /\ String.prefix "#  A" "# A" = false
  /\ includes "# A" "#  A" = false.
Proof. cbv zeta. vm_compute. repeat split. now left. Qed.

(** C10, amended. Every header line [L] of a document heads a section
    whose content begins with [L] and a line feed, the ['#'] characters
    included.  The pieces of that content are the ['#'] run of [L], then
    the pieces of the title text, the line feed and the body.  The
    section's first chunk is cut from the first 500 of these pieces,
    joined by single spaces and trimmed: its text begins with the ['#']
    run, its keywords are extracted from this text, and when [L] is
    single-spaced words, at most 500 of them, [L] itself comes first in
    the text. *)
Theorem header_line_in_first_chunk (doc L : string) :
  In L (split_char LF doc) -> is_header L = true ->
  exists sec rest k remainder,
    In sec (splitByMarkdownHeaders doc)
    /\ title sec = header_title L
    /\ sec_content sec = L ++ nl ++ rest
    /\ fst (span_hashes L) = k /\ 1 <= k <= 6
    /\ match_header L = Some remainder
    /\ split_ws (sec_content sec)
       = hash_run k :: split_ws (trimStart (remainder ++ nl ++ rest))
    /\ forall (rnd : uuid_source) (n : nat),
         exists c cs y,
           fst (createChunksFromSection rnd sec n) = c :: cs
           /\ content c
              = trim (join " " (slice 0 CONTEXT_CONSTANTS.CHUNK_SIZE
                                  (split_ws (sec_content sec))))
           /\ keywords c = extractKeywords (content c)
           /\ content c = hash_run k ++ y
           /\ (forall ws,
                 L = join " " ws -> Forall word_ok ws ->
                 length ws <= CONTEXT_CONSTANTS.CHUNK_SIZE ->
                 exists z, content c = L ++ z).
Proof.
  intros HL Hhdr.
  destruct (header_line_has_section doc L HL Hhdr) as (sec & Hsec & Htitle & rest & Hrest).
  destruct (split_ws_headed L rest Hhdr) as (k & rem & Hk & Hr & Hm & Hsplit).
  exists sec, rest, k, rem. rewrite Hrest.
  repeat split; try assumption; try lia.
  intros rnd n. unfold createChunksFromSection. rewrite Hrest.
  assert (Hfirst : exists c cs y,
            fst (chunk_loop (length (split_ws (L ++ nl ++ rest))) rnd (title sec)
                   (split_ws (L ++ nl ++ rest))
                   CONTEXT_CONSTANTS.CHUNK_SIZE CONTEXT_CONSTANTS.CHUNK_OVERLAP 0 n)
            = c :: cs
            /\ content c
               = window_text (split_ws (L ++ nl ++ rest)) CONTEXT_CONSTANTS.CHUNK_SIZE 0
            /\ keywords c = extractKeywords (content c)
            /\ content c = hash_run k ++ y).
  { rewrite Hsplit. cbn [length]. apply chunk_loop_first.
    - apply hash_run_word; lia.
    - unfold CONTEXT_CONSTANTS.CHUNK_SIZE; lia. }
  destruct Hfirst as (c & cs & y & Hrun & Hc & Hkw & Hy).
  exists c, cs, y. repeat split; try assumption.
  intros ws -> Hws Hlenws.
  assert (Hne : ws <> []) by (intros ->; discriminate Hhdr).
  rewrite Hc. unfold window_text. rewrite slice_window. cbn [skipn].
  change (nl ++ rest) with (String LF rest).
  rewrite split_ws_single_spaced by (assumption || reflexivity).
  rewrite firstn_app, (firstn_all2 ws) by exact Hlenws.
  now apply trim_join_prefix.
Qed.

Lemma header_line_in_first_chunk_witness :
  exists sec c cs z,
    In sec (splitByMarkdownHeaders scenarioA_document)
    /\ title sec = "About"
    /\ fst (createChunksFromSection sample_uuids sec 0) = c :: cs
    /\ content c = "# About" ++ z.
Proof.
  destruct (header_line_in_first_chunk scenarioA_document "# About")
    as (sec & rest & k & rem & Hsec & Htitle & _ & _ & _ & _ & _ & Hchunk).
  - vm_compute. now left.
  - reflexivity.
  - destruct (Hchunk sample_uuids 0) as (c & cs & y & Hrun & _ & _ & _ & Hverb).
    destruct (Hverb ["#"; "About"]) as (z & Hz).
    + reflexivity.
    + repeat constructor; discriminate.
    + unfold CONTEXT_CONSTANTS.CHUNK_SIZE. cbn [length]. lia.
    + exists sec, c, cs, z. repeat split; assumption.
Defined.

End HeaderChunkFacts.

(* ===================================================================== *)
(** * Further properties of the engine *)
(* ===================================================================== *)

(** ** Characters and tests on strings *)

Section CharFacts.
Import JS ContextProcessor Notions.

Lemma string_forall_append (p : ascii -> bool) (a b : string) :
  string_forall p (a ++ b) = string_forall p a && string_forall p b.
Proof.
  induction a as [|c a IH]; [reflexivity|]. cbn [append string_forall].
  now rewrite IH, andb_assoc.
Qed.

Lemma string_forall_map (p : ascii -> bool) (f : ascii -> ascii) (s : string) :
  string_forall p (map_string f s) = string_forall (fun c => p (f c)) s.
Proof.
  induction s as [|c s IH]; [reflexivity|]. cbn [map_string string_forall].
  now rewrite IH.
Qed.

Lemma string_forall_all (p : ascii -> bool) (s : string) :
  (forall c, p c = true) -> string_forall p s = true.
Proof.
  intros H. induction s as [|c s IH]; [reflexivity|]. cbn [string_forall].
  now rewrite H, IH.
Qed.

Lemma string_forall_impl (p q : ascii -> bool) (s : string) :
  (forall c, p c = true -> q c = true) ->
  string_forall p s = true -> string_forall q s = true.
Proof.
  intros H. induction s as [|c s IH]; [reflexivity|]. cbn [string_forall].
  intros Hs. apply andb_true_iff in Hs. destruct Hs as [Hc Hs].
  now rewrite (H c Hc), IH.
Qed.

Lemma map_string_map (f g : ascii -> ascii) (s : string) :
  map_string f (map_string g s) = map_string (fun c => f (g c)) s.
Proof.
  induction s as [|c s IH]; [reflexivity|]. cbn [map_string]. now rewrite IH.
Qed.

Lemma map_string_ext (f g : ascii -> ascii) (s : string) :
  (forall c, f c = g c) -> map_string f s = map_string g s.
Proof.
  intros H. induction s as [|c s IH]; [reflexivity|]. cbn [map_string].
  now rewrite H, IH.
Qed.

Lemma map_string_id_on (p : ascii -> bool) (f : ascii -> ascii) (s : string) :
  (forall c, p c = true -> f c = c) ->
  string_forall p s = true -> map_string f s = s.
Proof.
  intros H. induction s as [|c s IH]; [reflexivity|]. cbn [string_forall map_string].
  intros Hs. apply andb_true_iff in Hs. destruct Hs as [Hc Hs].
  now rewrite (H c Hc), IH.
Qed.

Ltac each_ascii c :=
  destruct c as [b0 b1 b2 b3 b4 b5 b6 b7];
  destruct b0, b1, b2, b3, b4, b5, b6, b7; vm_compute; try reflexivity; try discriminate.

Lemma clean_char_class (c : ascii) :
  is_lower_alnum (clean_char c) || is_space (clean_char c) = true.
Proof. each_ascii c. Qed.

Lemma clean_char_lower (c : ascii) : clean_char (lower c) = clean_char c.
Proof. each_ascii c. Qed.

Lemma clean_char_fixed (c : ascii) :
  is_lower_alnum c || Ascii.eqb c " " = true -> clean_char c = c.
Proof. each_ascii c. Qed.

Lemma lower_alnum_not_space (c : ascii) :
  is_lower_alnum c = true -> is_space c = false.
Proof. each_ascii c. Qed.

Lemma cleanContent_steps (s : string) :
  cleanContent s = trim (collapse_ws (map_string clean_char s)).
Proof.
  unfold cleanContent, toLowerCase. now rewrite !map_string_map.
Qed.

End CharFacts.

(** ** extractKeywords *)

Section KeywordFacts.
Import JS ContextProcessor Notions Samples.

Lemma collapse_ws_cons (c : ascii) (s : string) :
  collapse_ws (String c s)
  = if is_space c then
      match s with
      | String d _ => if is_space d then collapse_ws s else String " " (collapse_ws s)
      | EmptyString => String " " EmptyString
      end
    else String c (collapse_ws s).
Proof. reflexivity. Qed.

Lemma collapse_ws_class (s : string) :
  string_forall (fun c => is_lower_alnum c || is_space c) s = true ->
  string_forall (fun c => is_lower_alnum c || Ascii.eqb c " ") (collapse_ws s) = true.
Proof.
  induction s as [|c s IH]; [reflexivity|]. cbn [string_forall].
  intros H. apply andb_true_iff in H. destruct H as [Hc Hs].
  specialize (IH Hs). rewrite collapse_ws_cons.
  destruct (is_space c) eqn:Ec.
  - destruct s as [|d s']; [reflexivity|].
    destruct (is_space d); [exact IH|]. cbn [string_forall]. now rewrite IH, orb_true_r.
  - rewrite orb_false_r in Hc. cbn [string_forall]. now rewrite Hc, IH.
Qed.

Lemma trimStart_forall (p : ascii -> bool) (s : string) :
  string_forall p s = true -> string_forall p (trimStart s) = true.
Proof.
  induction s as [|c s IH]; [reflexivity|]. cbn [trimStart]. intros H.
  destruct (is_space c); [|exact H].
  cbn [string_forall] in H. apply andb_true_iff in H. now apply IH.
Qed.

Lemma trimEnd_forall (p : ascii -> bool) (s : string) :
  string_forall p s = true -> string_forall p (trimEnd s) = true.
Proof.
  induction s as [|c s IH]; [reflexivity|]. cbn [trimEnd string_forall]. intros H.
  apply andb_true_iff in H. destruct H as [Hc Hs].
  destruct (is_space c && is_empty (trimEnd s)); [reflexivity|].
  cbn [string_forall]. now rewrite Hc, IH.
Qed.

Lemma trim_forall (p : ascii -> bool) (s : string) :
  string_forall p s = true -> string_forall p (trim s) = true.
Proof. intros H. now apply trimEnd_forall, trimStart_forall. Qed.

Lemma split_char_cons (sep c : ascii) (s : string) :
  split_char sep (String c s)
  = if Ascii.eqb c sep then "" :: split_char sep s
    else match split_char sep s with
         | w :: r => String c w :: r
         | [] => [String c ""]
         end.
Proof. reflexivity. Qed.

Lemma split_char_not_nil (sep : ascii) (s : string) : split_char sep s <> [].
Proof.
  induction s as [|c s IH]; [discriminate|]. rewrite split_char_cons.
  destruct (Ascii.eqb c sep); [discriminate|]. destruct (split_char sep s); discriminate.
Qed.

(** The pieces between the spaces of a cleaned text are made of [a-z0-9]. *)
Lemma split_space_class (s : string) :
  string_forall (fun c => is_lower_alnum c || Ascii.eqb c " ") s = true ->
  Forall (fun w => string_forall is_lower_alnum w = true) (split_char " " s).
Proof.
  induction s as [|c s IH]; [repeat constructor|]. cbn [string_forall].
  intros H. apply andb_true_iff in H. destruct H as [Hc Hs]. specialize (IH Hs).
  rewrite split_char_cons. destruct (Ascii.eqb c " ") eqn:Ec.
  - now constructor.
  - rewrite orb_false_r in Hc.
    destruct (split_char " " s) as [|w r]; [repeat constructor; cbn; now rewrite Hc|].
    inversion IH as [|? ? Hw Hr]; subst. constructor; [|exact Hr].
    cbn [string_forall]. now rewrite Hc, Hw.
Qed.

Lemma cleanContent_class (s : string) :
  string_forall (fun c => is_lower_alnum c || Ascii.eqb c " ") (cleanContent s) = true.
Proof.
  rewrite cleanContent_steps. apply trim_forall, collapse_ws_class.
  rewrite string_forall_map. apply string_forall_all. apply clean_char_class.
Qed.

Lemma array_includes_In (l : list string) (x : string) :
  array_includes l x = true <-> In x l.
Proof.
  unfold array_includes. rewrite existsb_exists. split.
  - intros (y & Hy & E). apply String.eqb_eq in E. now subst.
  - intros H. exists x. split; [exact H | apply String.eqb_refl].
Qed.

Lemma set_insert_all_spec (ws seen : list string) :
  NoDup seen ->
  NoDup (set_insert_all seen ws)
  /\ (forall x, In x (set_insert_all seen ws) <-> In x seen \/ In x ws).
Proof.
  revert seen. induction ws as [|w ws IH]; intros seen Hseen; cbn [set_insert_all].
  - split; [exact Hseen|]. intros x. cbn. tauto.
  - destruct (array_includes seen w) eqn:E.
    + apply array_includes_In in E. destruct (IH seen Hseen) as [Hnd Hin].
      split; [exact Hnd|]. intros x. rewrite Hin. cbn. split; [tauto|].
      intros [H | [<- | H]]; tauto.
    + assert (Hw : ~ In w seen).
      { intros H. apply array_includes_In in H. congruence. }
      assert (Hnd' : NoDup (seen ++ [w])).
      { apply NoDup_app; [exact Hseen | repeat constructor; intros [] |].
        intros x Hx [<- | []]. now apply Hw. }
      destruct (IH _ Hnd') as [Hnd Hin]. split; [exact Hnd|].
      intros x. rewrite Hin, in_app_iff. cbn. tauto.
Qed.

(** A list without repetition goes through [[...new Set(ws)]] unchanged. *)
Lemma set_insert_all_NoDup (ws seen : list string) :
  NoDup (seen ++ ws) -> set_insert_all seen ws = (seen ++ ws)%list.
Proof.
  revert seen. induction ws as [|w ws IH]; intros seen H; cbn [set_insert_all].
  - now rewrite app_nil_r.
  - assert (Hw : array_includes seen w = false).
    { destruct (array_includes seen w) eqn:E; [|reflexivity].
      apply array_includes_In in E. apply NoDup_remove_2 in H.
      elim H. apply in_or_app. now left. }
    rewrite Hw, IH; rewrite <- app_assoc; [reflexivity | exact H].
Qed.

Lemma extractKeywords_wf (s : string) : keywords_wellformed (extractKeywords s).
Proof.
  unfold keywords_wellformed, extractKeywords. rewrite slice_from_zero.
  set (words := filter _ (split_char " " (cleanContent s))).
  destruct (set_insert_all_spec words [] (NoDup_nil _)) as [Hnd Hin].
  fold (unique words) in Hnd, Hin.
  split; [rewrite length_firstn; lia|].
  split.
  - rewrite <- (firstn_skipn 20 (unique words)) in Hnd.
    now apply NoDup_app_remove_r in Hnd.
  - apply Forall_forall. intros w Hw.
    assert (Hw' : In w words).
    { assert (Hu : In w (unique words)).
      { rewrite <- (firstn_skipn 20 (unique words)). apply in_or_app. now left. }
      apply Hin in Hu. destruct Hu as [[] | Hu]. exact Hu. }
    unfold words in Hw'. apply filter_In in Hw'. destruct Hw' as [Hsplit Hok].
    apply andb_true_iff in Hok. destruct Hok as [Hlen Hstop].
    apply Nat.leb_le in Hlen. apply negb_true_iff in Hstop.
    repeat split; try assumption.
    pose proof (split_space_class _ (cleanContent_class s)) as Hall.
    rewrite Forall_forall in Hall. now apply Hall.
Qed.

End KeywordFacts.

Section KeywordRoundTrip.
Import JS ContextProcessor Notions Samples.

Lemma join_class (p : ascii -> bool) (ws : list string) :
  p " "%char = true ->
  Forall (fun w => string_forall p w = true) ws ->
  string_forall p (join " " ws) = true.
Proof.
  intros Hsp Hall. induction ws as [|w ws IH]; [reflexivity|].
  inversion Hall as [|? ? Hw Hws]; subst. destruct ws as [|w' ws]; [exact Hw|].
  rewrite join_cons_cons, !string_forall_append, Hw, (IH Hws).
  cbn [string_forall]. now rewrite Hsp.
Qed.

Lemma collapse_ws_word (w s : string) :
  no_space w = true -> collapse_ws (w ++ s) = w ++ collapse_ws s.
Proof.
  induction w as [|c w IH]; intros Hw; [reflexivity|].
  cbn [no_space] in Hw. apply andb_true_iff in Hw. destruct Hw as [Hc Hw].
  apply negb_true_iff in Hc. cbn [append]. rewrite collapse_ws_cons, Hc.
  now rewrite IH.
Qed.

Lemma collapse_ws_join (ws : list string) :
  Forall word_ok ws -> collapse_ws (join " " ws) = join " " ws.
Proof.
  intros Hall. induction ws as [|w ws IH]; [reflexivity|].
  inversion Hall as [|? ? Hw Hws]; subst. destruct ws as [|w' ws].
  - cbn [join String.concat]. rewrite <- (append_empty_r w) at 1.
    rewrite collapse_ws_word by apply Hw. apply append_empty_r.
  - rewrite join_cons_cons, collapse_ws_word by apply Hw. f_equal.
    destruct (join_words_firm (w' :: ws) ltac:(discriminate) Hws)
      as [(d & r & E & Hd) _].
    rewrite E in *. cbn [append]. rewrite collapse_ws_cons.
    change (is_space " ") with true. cbv iota. rewrite Hd.
    now rewrite (IH Hws).
Qed.

Lemma trim_join (ws : list string) :
  Forall word_ok ws -> trim (join " " ws) = join " " ws.
Proof.
  intros Hall. destruct ws as [|w ws]; [reflexivity|].
  destruct (join_words_firm (w :: ws) ltac:(discriminate) Hall)
    as [(d & r & E & Hd) Hfix].
  unfold trim. rewrite E at 1. cbn [trimStart]. rewrite Hd, <- E. exact Hfix.
Qed.

Lemma split_char_word (sep : ascii) (w s : string) :
  string_forall (fun c => negb (Ascii.eqb c sep)) w = true ->
  split_char sep (w ++ String sep s) = w :: split_char sep s.
Proof.
  induction w as [|c w IH]; intros Hw; cbn [append].
  - rewrite split_char_cons. now rewrite Ascii.eqb_refl.
  - cbn [string_forall] in Hw. apply andb_true_iff in Hw. destruct Hw as [Hc Hw].
    apply negb_true_iff in Hc. rewrite split_char_cons, Hc, (IH Hw). reflexivity.
Qed.

Lemma split_char_single (sep : ascii) (w : string) :
  string_forall (fun c => negb (Ascii.eqb c sep)) w = true ->
  split_char sep w = [w].
Proof.
  induction w as [|c w IH]; intros Hw; [reflexivity|].
  cbn [string_forall] in Hw. apply andb_true_iff in Hw. destruct Hw as [Hc Hw].
  apply negb_true_iff in Hc. rewrite split_char_cons, Hc, (IH Hw). reflexivity.
Qed.

(** Splitting at the separator undoes joining with it. *)
Lemma split_char_join (ws : list string) :
  ws <> [] ->
  Forall (fun w => string_forall (fun c => negb (Ascii.eqb c " ")) w = true) ws ->
  split_char " " (join " " ws) = ws.
Proof.
  intros Hne Hall. induction ws as [|w ws IH]; [now elim Hne|].
  inversion Hall as [|? ? Hw Hws]; subst. destruct ws as [|w' ws].
  - now apply split_char_single.
  - rewrite join_cons_cons. cbn [append].
    rewrite split_char_word by exact Hw. f_equal. apply IH; [discriminate | exact Hws].
Qed.

Lemma filter_all {A : Type} (f : A -> bool) (l : list A) :
  Forall (fun x => f x = true) l -> filter f l = l.
Proof.
  induction 1 as [|x l Hx _ IH]; [reflexivity|]. cbn [filter]. now rewrite Hx, IH.
Qed.

Lemma lower_alnum_word (w : string) :
  1 <= String.length w -> string_forall is_lower_alnum w = true -> word_ok w.
Proof.
  intros Hlen Hw. split.
  - intros ->. cbn in Hlen. lia.
  - clear Hlen. induction w as [|c w IH]; [reflexivity|].
    cbn [string_forall] in Hw. apply andb_true_iff in Hw. destruct Hw as [Hc Hw].
    cbn [no_space]. now rewrite (lower_alnum_not_space c Hc), IH.
Qed.

Lemma extractKeywords_fixed (kws : list string) :
  keywords_wellformed kws -> extractKeywords (join " " kws) = kws.
Proof.
  intros (Hlen & Hnd & Hall). destruct kws as [|k0 kws0]; [reflexivity|].
  set (kws := k0 :: kws0) in *.
  assert (Hwords : Forall word_ok kws).
  { eapply Forall_impl; [|exact Hall]. intros w (H3 & _ & Hw). cbv beta in *.
    apply lower_alnum_word; [|exact Hw].
    unfold CONTEXT_CONSTANTS.MIN_KEYWORD_LENGTH in H3. lia. }
  assert (Hclean : cleanContent (join " " kws) = join " " kws).
  { rewrite cleanContent_steps.
    rewrite (map_string_id_on (fun c => is_lower_alnum c || Ascii.eqb c " ")).
    - now rewrite collapse_ws_join, trim_join.
    - apply clean_char_fixed.
    - apply join_class; [reflexivity|].
      eapply Forall_impl; [|exact Hall]. intros w (_ & _ & Hw). cbv beta in *.
      eapply string_forall_impl; [|exact Hw]. intros c Hc. now rewrite Hc. }
  unfold extractKeywords. rewrite Hclean, split_char_join.
  - rewrite filter_all.
    + unfold unique. rewrite set_insert_all_NoDup by exact Hnd.
      rewrite slice_from_zero. now apply firstn_all2.
    + eapply Forall_impl; [|exact Hall]. intros w (H3 & Hstop & _). cbv beta in *.
      apply Nat.leb_le in H3. now rewrite H3, Hstop.
  - discriminate.
  - eapply Forall_impl; [|exact Hall]. intros w (_ & _ & Hw). cbv beta in *.
    eapply string_forall_impl; [|exact Hw]. intros c Hc.
    apply negb_true_iff. destruct (Ascii.eqb c " ") eqn:E; [|reflexivity].
    apply Ascii.eqb_eq in E. subst c. discriminate Hc.
Qed.

(** X1. The keywords of any text: at most 20, without repetition, each at
    least 3 characters long, not a stop word, and made of the characters
    [a-z0-9] only. *)
Theorem extractKeywords_wellformed (s : string) :
  length (extractKeywords s) <= 20
  /\ NoDup (extractKeywords s)
  /\ Forall (fun w => 3 <= String.length w
                      /\ isStopWord w = false
                      /\ string_forall is_lower_alnum w = true)
            (extractKeywords s).
Proof. exact (extractKeywords_wf s). Qed.

(** X2. A keyword list of that form is what [extractKeywords] returns for
    its words joined by spaces; so extracting from the joined keywords of
    a text gives the keywords of the text again. *)
Theorem extractKeywords_of_joined_keywords (kws : list string) :
  keywords_wellformed kws ->
  extractKeywords (join " " kws) = kws
  /\ forall s, extractKeywords (join " " (extractKeywords s)) = extractKeywords s.
Proof.
  intros H. split; [now apply extractKeywords_fixed|].
  intros s. apply extractKeywords_fixed, extractKeywords_wf.
Qed.

Lemma extractKeywords_of_joined_keywords_witness :
  extractKeywords "like rust" = ["like"; "rust"].
Proof.
  apply (proj1 (extractKeywords_of_joined_keywords ["like"; "rust"]
                  ltac:(repeat split; [cbn; lia | repeat constructor; cbn; intuition discriminate | repeat constructor; cbn; lia]))).
Defined.

(** X3. Keyword extraction does not see letter case. *)
Theorem extractKeywords_ignores_case (s : string) :
  extractKeywords (toLowerCase s) = extractKeywords s.
Proof.
  unfold extractKeywords. rewrite !cleanContent_steps.
  unfold toLowerCase. rewrite map_string_map.
  now rewrite (map_string_ext _ clean_char s clean_char_lower).
Qed.

End KeywordRoundTrip.

(** ** Relevance scores *)

Section ScoreFacts.
Import JS ContextProcessor Notions Samples.

Lemma Qltb_lt (a b : Q) : Qltb a b = true <-> (a < b)%Q.
Proof. unfold Qltb, Qlt. apply Z.ltb_lt. Qed.

Lemma Qltb_ge (a b : Q) : Qltb a b = false <-> (b <= a)%Q.
Proof. unfold Qltb, Qle. apply Z.ltb_ge. Qed.

Lemma commonKeywords_length (qk : list string) (c : ContextChunk) :
  length (commonKeywords qk c) <= length qk.
Proof.
  unfold commonKeywords. induction qk as [|k qk IH]; [apply le_n|].
  cbn [filter]. destruct (existsb _ _); cbn [length]; lia.
Qed.

Lemma commonKeywords_no_chunk_keywords (qk : list string) (c : ContextChunk) :
  keywords c = [] -> commonKeywords qk c = [].
Proof.
  intros E. unfold commonKeywords. rewrite E.
  induction qk as [|k qk IH]; [reflexivity | exact IH].
Qed.

Lemma Zpos_of_nat (n : nat) : n <> 0 -> Zpos (Pos.of_nat n) = Z.of_nat n.
Proof.
  intros Hn. rewrite <- (Nat2Pos.id n Hn) at 2. now rewrite positive_nat_Z.
Qed.

(** The score as the exact quotient, whenever there are query keywords. *)
Lemma score_quotient (qk : list string) (c : ContextChunk) :
  qk <> [] ->
  (calculateSimpleRelevanceScore qk c
   == Z.of_nat (length (commonKeywords qk c)) # Pos.of_nat (length qk))%Q.
Proof.
  intros Hq. unfold calculateSimpleRelevanceScore.
  destruct qk as [|k qk]; [now elim Hq|]. cbn [length Nat.eqb orb].
  destruct (length (keywords c) =? 0) eqn:E.
  - apply Nat.eqb_eq in E.
    rewrite commonKeywords_no_chunk_keywords
      by (destruct (keywords c); [reflexivity | discriminate E]).
    reflexivity.
  - apply Qred_correct.
Qed.

Lemma score_bounds (qk : list string) (c : ContextChunk) :
  (0 <= calculateSimpleRelevanceScore qk c <= 1)%Q.
Proof.
  destruct qk as [|k qk]; [cbn; split; discriminate|].
  rewrite (score_quotient (k :: qk) c) by discriminate.
  pose proof (commonKeywords_length (k :: qk) c) as Hle.
  unfold Qle. cbn [Qnum Qden].
  rewrite Zpos_of_nat by discriminate. split; lia.
Qed.

(** A score is above the threshold 0.05 exactly when the query keywords
    are fewer than 20 times the matched ones. *)
Lemma score_above_threshold (qk : list string) (c : ContextChunk) :
  Qltb threshold (calculateSimpleRelevanceScore qk c) = true
  <-> length qk < 20 * length (commonKeywords qk c).
Proof.
  destruct qk as [|k qk]; [cbn; split; [discriminate | lia]|].
  rewrite Qltb_lt, (score_quotient (k :: qk) c) by discriminate.
  unfold Qlt, threshold. cbn [Qnum Qden].
  rewrite Zpos_of_nat by discriminate. lia.
Qed.

(** X4. A relevance score lies between 0 and 1, and it is 0 when the query
    or the chunk has no keyword. *)
Theorem relevance_score_range (query : string) (qk : list string) (c : ContextChunk) :
  (0 <= calculateSimpleRelevanceScore qk c <= 1)%Q
  /\ (0 <= calculateRelevanceScore query c <= 1)%Q
  /\ (keywords c = [] -> calculateSimpleRelevanceScore qk c = 0%Q)
  /\ (extractKeywords query = [] -> calculateRelevanceScore query c = 0%Q).
Proof.
  split; [apply score_bounds|]. split; [apply score_bounds|]. split.
  - intros E. unfold calculateSimpleRelevanceScore. rewrite E. cbn [length Nat.eqb].
    now rewrite orb_true_r.
  - intros E. unfold calculateRelevanceScore. now rewrite E.
Qed.

Lemma relevance_score_range_witness :
  calculateSimpleRelevanceScore ["rust"]
    {| id := "c"; content := "x"; keywords := []; section := None;
       relevanceScore := None |} = 0%Q.
Proof.
  apply (proj1 (proj2 (proj2 (relevance_score_range "" ["rust"]
           {| id := "c"; content := "x"; keywords := []; section := None;
              relevanceScore := None |})))).
  reflexivity.
Defined.

(** X5. The score of a chunk for a query is above the threshold exactly
    when some query keyword matches, except that one match among 20 query
    keywords (a score of exactly 0.05) is not above it. *)
Theorem relevance_threshold_boundary (query : string) (c : ContextChunk) :
  let qk := extractKeywords query in
  let matched := commonKeywords qk c in
  Qltb threshold (calculateRelevanceScore query c) = true
  <-> matched <> [] /\ ~ (length qk = 20 /\ length matched = 1).
Proof.
  intros qk matched. unfold calculateRelevanceScore. fold qk.
  rewrite score_above_threshold. fold matched.
  destruct (extractKeywords_wf query) as (Hlen & _). fold qk in Hlen.
  pose proof (commonKeywords_length qk c) as Hle. fold matched in Hle.
  split.
  - intros H. split; [intros E; rewrite E in H; cbn in H; lia | lia].
  - intros [Hne Hnot]. destruct matched as [|m ms]; [now elim Hne|].
    cbn [length] in *. lia.
Qed.

End ScoreFacts.

(** ** Sorting and selecting chunks *)

Section SortFacts.
Import JS ContextProcessor Notions Samples.

Lemma insert_by_score_perm (x : ContextChunk) (l : list ContextChunk) :
  Permutation (insert_by_score x l) (x :: l).
Proof.
  induction l as [|y l IH]; cbn [insert_by_score]; [apply Permutation_refl|].
  destruct (Qltb _ _); [|apply Permutation_refl].
  eapply perm_trans; [apply perm_skip, IH | apply perm_swap].
Qed.

Lemma sort_by_score_perm (l : list ContextChunk) :
  Permutation (sort_by_score l) l.
Proof.
  induction l as [|x l IH]; [apply perm_nil|]. cbn [sort_by_score fold_right].
  eapply perm_trans; [apply insert_by_score_perm | now apply perm_skip].
Qed.

Lemma insert_by_score_descending (x : ContextChunk) (l : list ContextChunk) :
  descending l -> descending (insert_by_score x l).
Proof.
  induction l as [|y l IH]; intros Hl; cbn [insert_by_score].
  - cbn. split; [constructor | exact I].
  - destruct Hl as [Hy Hl]. destruct (Qltb _ _) eqn:E.
    + cbn [descending]. split; [|now apply IH].
      apply (Permutation_Forall (Permutation_sym (insert_by_score_perm x l))).
      constructor; [|exact Hy]. apply Qltb_lt in E. now apply Qlt_le_weak.
    + apply Qltb_ge in E. cbn [descending]. repeat split; try assumption.
      constructor; [exact E|].
      eapply Forall_impl; [|exact Hy]. intros z Hz. cbv beta in *.
      now apply Qle_trans with (score_or_zero y).
Qed.

Lemma sort_by_score_descending (l : list ContextChunk) :
  descending (sort_by_score l).
Proof.
  induction l as [|x l IH]; [exact I|]. now apply insert_by_score_descending.
Qed.

(** Chunks of one score keep their order. *)
Lemma insert_by_score_filter (v : Q) (x : ContextChunk) (l : list ContextChunk) :
  filter (fun c => Qeq_bool (score_or_zero c) v) (insert_by_score x l)
  = filter (fun c => Qeq_bool (score_or_zero c) v) (x :: l).
Proof.
  induction l as [|y l IH]; [reflexivity|]. cbn [insert_by_score].
  destruct (Qltb _ _) eqn:E; [|reflexivity].
  cbn [filter] in *. rewrite IH.
  destruct (Qeq_bool (score_or_zero x) v) eqn:Ex; [|reflexivity].
  destruct (Qeq_bool (score_or_zero y) v) eqn:Ey; [|reflexivity].
  apply Qeq_bool_iff in Ex, Ey. apply Qltb_lt in E.
  rewrite Ex, Ey in E. now apply Qlt_irrefl in E.
Qed.

Lemma sort_by_score_filter (v : Q) (l : list ContextChunk) :
  filter (fun c => Qeq_bool (score_or_zero c) v) (sort_by_score l)
  = filter (fun c => Qeq_bool (score_or_zero c) v) l.
Proof.
  induction l as [|x l IH]; [reflexivity|]. cbn [sort_by_score fold_right].
  fold (sort_by_score l). rewrite insert_by_score_filter. cbn [filter].
  now rewrite IH.
Qed.

(** X6. The sort by score rearranges the array without losing or adding a
    chunk, leaves it in descending order of score, and is stable: the
    chunks of any one score stay in the order they had. *)
Theorem sort_by_score_stable_descending (l : list ContextChunk) (v : Q) :
  Permutation (sort_by_score l) l
  /\ descending (sort_by_score l)
  /\ filter (fun c => Qeq_bool (score_or_zero c) v) (sort_by_score l)
     = filter (fun c => Qeq_bool (score_or_zero c) v) l.
Proof.
  split; [apply sort_by_score_perm|].
  split; [apply sort_by_score_descending | apply sort_by_score_filter].
Qed.

Lemma descending_firstn (k : nat) (l : list ContextChunk) :
  descending l -> descending (firstn k l).
Proof.
  revert l. induction k as [|k IH]; intros [|x l] Hl; try exact I.
  destruct Hl as [Hx Hl]. cbn [firstn descending]. split; [|now apply IH].
  apply Forall_forall. intros y Hy. rewrite Forall_forall in Hx. apply Hx.
  rewrite <- (firstn_skipn k l). apply in_or_app. now left.
Qed.

Lemma In_firstn {A : Type} (k : nat) (l : list A) (x : A) :
  In x (firstn k l) -> In x l.
Proof.
  intros H. rewrite <- (firstn_skipn k l). apply in_or_app. now left.
Qed.

Lemma selection_from_scored (q : string) (cs : list ContextChunk) (r : ContextChunk) :
  In r (extractRelevantChunks q cs) -> In r (scoredChunks q cs).
Proof.
  unfold extractRelevantChunks. destruct (takes_fallback _).
  - unfold fallbackSelection. rewrite slice_from_zero. intros H.
    apply In_firstn in H.
    now apply (Permutation_in _ (sort_by_score_perm _)) in H.
  - unfold thresholdSelection. rewrite slice_from_zero. intros H.
    apply In_firstn in H.
    apply (Permutation_in _ (sort_by_score_perm _)) in H.
    now apply filter_In in H.
Qed.

Lemma selection_descending (q : string) (cs : list ContextChunk) :
  descending (extractRelevantChunks q cs).
Proof.
  unfold extractRelevantChunks, fallbackSelection, thresholdSelection.
  destruct (takes_fallback _); rewrite slice_from_zero;
    apply descending_firstn, sort_by_score_descending.
Qed.

(** X7. Whatever the query, at most 5 chunks are selected; each is one of
    the given chunks, unchanged but for carrying its score for the query;
    and they come in descending order of score. *)
Theorem extractRelevantChunks_bounded (q : string) (cs : list ContextChunk) :
  length (extractRelevantChunks q cs) <= CONTEXT_CONSTANTS.MAX_CHUNKS_PER_QUERY
  /\ (forall r, In r (extractRelevantChunks q cs) ->
        exists c, In c cs
                  /\ r = with_score (calculateRelevanceScore q c) c)
  /\ descending (extractRelevantChunks q cs)
  /\ (cs = [] -> extractRelevantChunks q cs = []).
Proof.
  split; [|split; [|split]].
  - unfold extractRelevantChunks, fallbackSelection, thresholdSelection.
    destruct (takes_fallback _); rewrite slice_from_zero, length_firstn;
      unfold CONTEXT_CONSTANTS.MAX_CHUNKS_PER_QUERY; lia.
  - intros r Hr. apply selection_from_scored in Hr.
    unfold scoredChunks in Hr. apply in_map_iff in Hr.
    destruct Hr as (c & <- & Hc). now exists c.
  - apply selection_descending.
  - intros ->. reflexivity.
Qed.

Lemma extractRelevantChunks_bounded_witness :
  extractRelevantChunks "rust" [] = [].
Proof.
  apply (proj2 (proj2 (proj2 (extractRelevantChunks_bounded "rust" [])))).
  reflexivity.
Defined.

End SortFacts.

Section BestFirstFacts.
Import JS ContextProcessor Notions Samples.

Lemma descending_head (r0 s : ContextChunk) (t : list ContextChunk) :
  descending (r0 :: t) -> In s (r0 :: t) -> (score_or_zero s <= score_or_zero r0)%Q.
Proof.
  intros [Ht _] [<- | Hs]; [apply Qle_refl|].
  rewrite Forall_forall in Ht. now apply Ht.
Qed.

Lemma firstn_head {A : Type} (k : nat) (l : list A) (x : A) (rest : list A) :
  firstn k l = x :: rest -> exists l', l = x :: l'.
Proof.
  destruct k; [discriminate|]. destruct l as [|y l]; [discriminate|].
  cbn [firstn]. intros H. injection H as -> _. now exists l.
Qed.

Lemma scored_above (q : string) (cs : list ContextChunk) :
  filter (fun chunk => Qltb threshold (score_or_zero chunk)) (scoredChunks q cs)
  = map (fun c => with_score (calculateRelevanceScore q c) c)
        (filter (fun c => Qltb threshold (calculateRelevanceScore q c)) cs).
Proof.
  unfold scoredChunks, calculateRelevanceScore.
  induction cs as [|c cs IH]; [reflexivity|]. cbn [map filter].
  cbn [score_or_zero with_score relevanceScore].
  destruct (Qltb threshold _); cbn [map]; now rewrite IH.
Qed.

Lemma takes_fallback_iff (q : string) (cs : list ContextChunk) :
  takes_fallback (scoredChunks q cs) = true
  <-> filter (fun c => Qltb threshold (calculateRelevanceScore q c)) cs = []
      /\ cs <> [].
Proof.
  unfold takes_fallback, thresholdSelection.
  rewrite slice_from_zero, length_firstn, sort_by_score_length, scored_above.
  rewrite length_map, scoredChunks_length, andb_true_iff, Nat.eqb_eq, Nat.ltb_lt.
  unfold CONTEXT_CONSTANTS.MAX_CHUNKS_PER_QUERY.
  destruct (filter _ cs) as [|a l]; destruct cs as [|c cs']; cbn [length];
    split; intros [H1 H2]; try lia; try discriminate; try (now elim H2);
    split; try reflexivity; try discriminate; try lia.
Qed.

(** X8. The first selected chunk has the highest score of all chunks.
    When some chunk scores above the threshold, the selection is the best
    5 of those that do (or all of them, if fewer) and nothing below the
    threshold is selected; when none does, the fallback selects 2 chunks
    (or the only one). *)
Theorem extractRelevantChunks_best_first (q : string) (cs : list ContextChunk) :
  let above := filter (fun c => Qltb threshold (calculateRelevanceScore q c)) cs in
  (forall r0 rest c,
      extractRelevantChunks q cs = r0 :: rest -> In c cs ->
      (calculateRelevanceScore q c <= score_or_zero r0)%Q)
  /\ (above <> [] ->
      length (extractRelevantChunks q cs) = Nat.min 5 (length above)
      /\ Forall (fun r => Qltb threshold (score_or_zero r) = true)
                (extractRelevantChunks q cs))
  /\ (above = [] ->
      length (extractRelevantChunks q cs) = Nat.min 2 (length cs)).
Proof.
  intros above.
  pose proof (takes_fallback_iff q cs) as Hfb. fold above in Hfb.
  split; [|split].
  - intros r0 rest c Hres Hc.
    pose proof (selection_descending q cs) as Hdesc. rewrite Hres in Hdesc.
    set (sc := with_score (calculateRelevanceScore q c) c).
    assert (Hsc : In sc (scoredChunks q cs)).
    { unfold scoredChunks. apply in_map_iff. now exists c. }
    change (calculateRelevanceScore q c) with (score_or_zero sc).
    unfold extractRelevantChunks in Hres.
    destruct (takes_fallback (scoredChunks q cs)) eqn:E.
    + unfold fallbackSelection in Hres. rewrite slice_from_zero in Hres.
      destruct (firstn_head _ _ _ _ Hres) as (l' & Hl).
      pose proof (sort_by_score_descending (scoredChunks q cs)) as Hd.
      rewrite Hl in Hd. apply (descending_head r0 sc l' Hd).
      rewrite <- Hl.
      now apply (Permutation_in _ (Permutation_sym (sort_by_score_perm _))).
    + unfold thresholdSelection in Hres. rewrite slice_from_zero in Hres.
      destruct (firstn_head _ _ _ _ Hres) as (l' & Hl).
      set (p := fun chunk => Qltb threshold (score_or_zero chunk)) in *.
      pose proof (sort_by_score_descending (filter p (scoredChunks q cs))) as Hd.
      rewrite Hl in Hd.
      assert (Hr0 : p r0 = true).
      { assert (Hin : In r0 (filter p (scoredChunks q cs))).
        { apply (Permutation_in _ (sort_by_score_perm _)). rewrite Hl. now left. }
        now apply filter_In in Hin. }
      destruct (p sc) eqn:Ep.
      * apply (descending_head r0 sc l' Hd). rewrite <- Hl.
        apply (Permutation_in _ (Permutation_sym (sort_by_score_perm _))).
        apply filter_In. now split.
      * unfold p in Ep, Hr0. apply Qltb_ge in Ep. apply Qltb_lt in Hr0.
        apply Qlt_le_weak. now apply Qle_lt_trans with threshold.
  - intros Hab.
    assert (E : takes_fallback (scoredChunks q cs) = false).
    { apply not_true_is_false. intros E. apply Hfb in E.
      destruct E as [E _]. now elim Hab. }
    unfold extractRelevantChunks. rewrite E. unfold thresholdSelection.
    rewrite slice_from_zero. split.
    + rewrite length_firstn, sort_by_score_length, scored_above, length_map.
      reflexivity.
    + apply Forall_forall. intros r Hr. apply In_firstn in Hr.
      apply (Permutation_in _ (sort_by_score_perm _)) in Hr.
      now apply filter_In in Hr.
  - intros Hab. destruct cs as [|c0 cs0]; [reflexivity|].
    assert (E : takes_fallback (scoredChunks q (c0 :: cs0)) = true)
      by (apply Hfb; split; [exact Hab | discriminate]).
    unfold extractRelevantChunks. rewrite E. unfold fallbackSelection.
    rewrite slice_from_zero, length_firstn, sort_by_score_length, scoredChunks_length.
    reflexivity.
Qed.

Lemma extractRelevantChunks_best_first_witness :
  length (extractRelevantChunks "rust and chess" [sample_chunk; other_chunk; third_chunk])
  = 2
  /\ Forall (fun r => Qltb threshold (score_or_zero r) = true)
            (extractRelevantChunks "rust and chess"
               [sample_chunk; other_chunk; third_chunk]).
Proof.
  apply (proj1 (proj2 (extractRelevantChunks_best_first "rust and chess"
                         [sample_chunk; other_chunk; third_chunk]))).
  vm_compute. discriminate.
Defined.

End BestFirstFacts.

(** ** Blank text *)

Section BlankFacts.
Import JS ContextProcessor Notions Samples.

Lemma blank_append (a b : string) : blank (a ++ b) = blank a && blank b.
Proof. apply string_forall_append. Qed.

Lemma trimStart_blank (s : string) : blank s = true -> trimStart s = "".
Proof.
  induction s as [|c s IH]; [reflexivity|]. cbn [blank string_forall trimStart].
  intros H. apply andb_true_iff in H. destruct H as [Hc Hs]. rewrite Hc. now apply IH.
Qed.

Lemma trim_blank (s : string) : blank s = true <-> trim s = "".
Proof.
  split.
  - intros H. unfold trim. now rewrite trimStart_blank.
  - induction s as [|c s IH]; [reflexivity|]. intros H.
    destruct (is_space c) eqn:Hc.
    + rewrite trim_cons_space in H by exact Hc.
      cbn [blank string_forall]. rewrite Hc. now apply IH.
    + rewrite trim_cons_nonspace in H by exact Hc. discriminate H.
Qed.

Lemma not_blank_trim (s : string) : blank s = false <-> trim s <> "".
Proof.
  rewrite <- trim_blank. destruct (blank s); split; intro H; try reflexivity;
    try discriminate; now elim H.
Qed.





Lemma split_char_forall (p : ascii -> bool) (sep : ascii) (s : string) :
  string_forall p s = true ->
  Forall (fun w => string_forall p w = true) (split_char sep s).
Proof.
  induction s as [|c s IH]; [repeat constructor|]. cbn [string_forall].
  intros H. apply andb_true_iff in H. destruct H as [Hc Hs]. specialize (IH Hs).
  rewrite split_char_cons. destruct (Ascii.eqb c sep).
  - now constructor.
  - destruct (split_char sep s) as [|w r]; [repeat constructor; cbn; now rewrite Hc|].
    inversion IH as [|? ? Hw Hr]; subst. constructor; [|exact Hr].
    cbn [string_forall]. now rewrite Hc, Hw.
Qed.

(** A text with a character that is not whitespace has a line with one. *)
Lemma split_char_not_blank (s : string) :
  blank s = false -> Exists (fun l => blank l = false) (split_char LF s).
Proof.
  induction s as [|c s IH]; [discriminate|]. cbn [blank string_forall].
  intros H. rewrite split_char_cons.
  destruct (Ascii.eqb c LF) eqn:Ec.
  - apply Ascii.eqb_eq in Ec. subst c. change (is_space LF) with true in H.
    apply Exists_cons_tl. now apply IH.
  - destruct (split_char LF s) as [|w r] eqn:Es; [now elim (split_char_not_nil LF s)|].
    destruct (is_space c) eqn:Hc.
    + cbn [andb] in H. specialize (IH H). inversion IH as [? ? Hw | ? ? Hr]; subst.
      * apply Exists_cons_hd. cbn [blank string_forall]. rewrite Hc. exact Hw.
      * now apply Exists_cons_tl.
    + apply Exists_cons_hd. cbn [blank string_forall]. now rewrite Hc.
Qed.

Lemma split_ws_blank (s : string) :
  blank s = true -> Forall (fun w => w = "") (split_ws s).
Proof.
  intros H. destruct s as [|c s]; [repeat constructor|].
  cbn [blank string_forall] in H. apply andb_true_iff in H. destruct H as [Hc Hs].
  rewrite split_ws_space by exact Hc. rewrite trimStart_blank by exact Hs.
  repeat constructor.
Qed.

Lemma split_ws_not_blank (s : string) :
  blank s = false -> Exists word_ok (split_ws s).
Proof.
  intros H. pose proof (split_ws_no_space s) as Hns.
  assert (Hex : Exists (fun w => w <> "") (split_ws s)).
  { induction s as [|c s IH]; [discriminate|]. cbn [blank string_forall] in H.
    destruct (is_space c) eqn:Hc.
    - cbn [andb] in H. rewrite split_ws_cons, Hc.
      assert (Hs : Exists (fun w => w <> "") (split_ws s)).
      { apply IH; [exact H | apply split_ws_no_space]. }
      destruct s as [|d s']; [discriminate H|].
      destruct (is_space d); [exact Hs | now apply Exists_cons_tl].
    - destruct (split_ws_nonspace c s Hc) as (h & t & _ & ->).
      apply Exists_cons_hd. discriminate. }
  apply Exists_exists in Hex. destruct Hex as (w & Hin & Hw).
  apply Exists_exists. exists w. split; [exact Hin|]. split; [exact Hw|].
  rewrite Forall_forall in Hns. now apply Hns.
Qed.

End BlankFacts.

(** ** What the chunking loop emits *)

Section EmitFacts.
Import JS ContextProcessor Notions Samples.

Variables (rnd : uuid_source) (t : string) (words : list string).
Variables (size ov : nat).

(** Every emitted chunk is the non-empty text of a window, with the
    keywords of that text, the section label of the title and no score. *)
Lemma chunk_loop_emits (fuel : nat) :
  forall i n c,
    In c (fst (chunk_loop fuel rnd t words size ov i n)) ->
    exists j,
      content c = window_text words size j
      /\ content c <> ""
      /\ keywords c = extractKeywords (content c)
      /\ section c = (if is_empty t then None else Some t)
      /\ relevanceScore c = None.
Proof.
  induction fuel as [|fuel IH]; intros i n c Hc; [contradiction|].
  cbn [chunk_loop] in Hc. destruct (i <? length words); [|contradiction].
  fold (window_text words size i) in Hc.
  destruct (0 <? String.length (window_text words size i)) eqn:Ew.
  - destruct (chunk_loop fuel rnd t words size ov (i + (size - ov)) (S n))
      as [rest n'] eqn:Erest.
    cbn [fst] in Hc. destruct Hc as [<- | Hc].
    + exists i. cbn [content keywords section relevanceScore]. repeat split.
      now apply positive_length_nonempty.
    + apply (IH (i + (size - ov)) (S n)). now rewrite Erest.
  - now apply (IH (i + (size - ov)) n).
Qed.

(** One id is drawn for every emitted chunk, in order. *)
Lemma chunk_loop_ids (fuel : nat) :
  forall i n,
    snd (chunk_loop fuel rnd t words size ov i n)
    = n + length (fst (chunk_loop fuel rnd t words size ov i n))
    /\ map id (fst (chunk_loop fuel rnd t words size ov i n))
       = map rnd (seq n (length (fst (chunk_loop fuel rnd t words size ov i n)))).
Proof.
  induction fuel as [|fuel IH]; intros i n; cbn [chunk_loop].
  - cbn. split; [lia | reflexivity].
  - destruct (i <? length words); [|cbn; split; [lia | reflexivity]].
    destruct (0 <? String.length _).
    + destruct (IH (i + (size - ov)) (S n)) as [Hn Hids].
      destruct (chunk_loop fuel rnd t words size ov (i + (size - ov)) (S n))
        as [rest n'].
      cbn [fst snd length map seq id] in *. split; [lia | now rewrite Hids].
    + apply IH.
Qed.

(** Where every piece is empty nothing is emitted. *)
Lemma chunk_loop_blank (fuel : nat) :
  Forall (fun w => w = "") words ->
  forall i n, chunk_loop fuel rnd t words size ov i n = ([], n).
Proof.
  intros Hall. induction fuel as [|fuel IH]; intros i n; [reflexivity|].
  cbn [chunk_loop]. destruct (i <? length words); [|reflexivity].
  replace (trim (join " " (slice i (i + size) words))) with "".
  - cbn. apply IH.
  - symmetry. apply trim_blank. apply (join_class is_space); [reflexivity|].
    apply Forall_forall. intros w Hw. unfold slice in Hw.
    apply In_firstn in Hw.
    assert (Hin : In w words).
    { rewrite <- (firstn_skipn i words). apply in_or_app. now right. }
    rewrite Forall_forall in Hall. now rewrite (Hall w Hin).
Qed.

(** A window that holds a word is emitted; so with fuel for the words that
    are left, a word at or behind the start makes the loop emit. *)
Lemma chunk_loop_reaches_word (fuel : nat) :
  ov < size ->
  forall i n j,
    length words - i <= fuel ->
    i <= j -> j < length words -> word_ok (nth j words "") ->
    fst (chunk_loop fuel rnd t words size ov i n) <> [].
Proof.
  intros Hstep. induction fuel as [|fuel IH]; intros i n j Hfuel Hij Hj Hw; [lia|].
  cbn [chunk_loop]. destruct (i <? length words) eqn:Ei;
    [|apply Nat.ltb_ge in Ei; lia].
  fold (window_text words size i).
  destruct (0 <? String.length (window_text words size i)) eqn:Ew.
  - destruct (chunk_loop fuel rnd t words size ov (i + (size - ov)) (S n)).
    discriminate.
  - destruct (Nat.lt_ge_cases j (i + size)) as [Hin | Hout].
    + exfalso.
      assert (Hne : window_text words size i <> "").
      { unfold window_text. rewrite slice_window.
        destruct (word_ok_head _ Hw) as (c & r & E & Hc).
        assert (Hmem : In (nth j words "") (firstn size (skipn i words)))
          by (apply nth_in_window; lia).
        destruct (join_contains " " _ _ Hmem) as (pre & post & ->).
        rewrite E. cbn [append]. now apply trim_not_empty. }
      apply positive_length_nonempty in Hne. rewrite Hne in Ew. discriminate Ew.
    + apply (IH (i + (size - ov)) n j); try assumption; lia.
Qed.

End EmitFacts.

(** ** Sections of a document *)

Section SectionFacts.
Import JS ContextProcessor Notions Samples.

Lemma is_empty_trim (s : string) : is_empty (trim s) = blank s.
Proof.
  destruct (blank s) eqn:E.
  - apply trim_blank in E. now rewrite E.
  - apply not_blank_trim in E. now apply is_empty_false.
Qed.

Lemma unlines_split (s : string) : unlines (split_char LF s) = s ++ nl.
Proof.
  induction s as [|c s IH]; [reflexivity|]. rewrite split_char_cons.
  destruct (Ascii.eqb c LF) eqn:Ec.
  - apply Ascii.eqb_eq in Ec. subst c. cbn [unlines append]. now rewrite IH.
  - destruct (split_char LF s) as [|w r] eqn:Es;
      [now elim (split_char_not_nil LF s)|].
    cbn [unlines append] in *. now rewrite IH.
Qed.

Lemma header_not_blank (l : string) : is_header l = true -> blank l = false.
Proof.
  intros H. destruct (is_header_shape l H) as (k & c & tail & rem & _ & Hk & -> & _).
  destruct k as [|k]; [lia|]. reflexivity.
Qed.

Lemma splitByMarkdownHeaders_cases (doc : string) :
  let out := fold_left header_step (split_char LF doc)
               ([], {| title := ""; sec_content := "" |}) in
  let final := if blank (sec_content (snd out)) then fst out
               else (fst out ++ [snd out])%list in
  splitByMarkdownHeaders doc
  = match final with
    | [] => [{| title := "Content"; sec_content := doc |}]
    | _ :: _ => final
    end.
Proof.
  cbv zeta. unfold splitByMarkdownHeaders.
  destruct (fold_left header_step _ _) as [secs cur]. cbn [fst snd].
  now rewrite is_empty_trim.
Qed.

(** Without header lines the loop only extends the current section. *)
Lemma fold_no_headers (lines : list string) :
  Forall (fun l => is_header l = false) lines ->
  forall secs cur,
    fold_left header_step lines (secs, cur)
    = (secs, {| title := title cur;
                sec_content := sec_content cur ++ unlines lines |}).
Proof.
  induction 1 as [|l lines Hl _ IH]; intros secs cur; cbn [fold_left unlines].
  - rewrite append_empty_r. now destruct cur.
  - unfold header_step at 2. rewrite Hl, IH. cbn [title sec_content].
    now rewrite !append_assoc.
Qed.

(** The loop stores sections that are not blank, under titles that are
    empty or come from a header line. *)
Lemma fold_sections_inv (all : list string) (lines : list string) :
  incl lines all ->
  forall secs cur,
    (forall s, In s secs -> blank (sec_content s) = false /\ title_from all s) ->
    title_from all cur ->
    let out := fold_left header_step lines (secs, cur) in
    (forall s, In s (fst out) -> blank (sec_content s) = false /\ title_from all s)
    /\ title_from all (snd out).
Proof.
  induction lines as [|l lines IH]; intros Hincl secs cur Hsecs Hcur;
    cbn [fold_left]; [now split|].
  assert (Hl : In l all) by (apply Hincl; now left).
  assert (Hrest : incl lines all) by (intros x Hx; apply Hincl; now right).
  destruct (header_step (secs, cur) l) as [secs1 cur1] eqn:E1.
  unfold header_step in E1. rewrite is_empty_trim in E1.
  destruct (is_header l) eqn:E; injection E1 as <- <-.
  - apply (IH Hrest).
    + destruct (blank (sec_content cur)) eqn:Eb; [exact Hsecs|].
      intros s Hs. apply in_app_or in Hs. destruct Hs as [Hs | [<- | []]].
      * now apply Hsecs.
      * now split.
    + right. now exists l.
  - apply (IH Hrest); [exact Hsecs | exact Hcur].
Qed.

(** A line that is not blank leaves a stored section or a current section
    that is not blank. *)
Lemma fold_keeps_text (lines : list string) :
  forall secs cur,
    secs <> [] \/ blank (sec_content cur) = false
    \/ Exists (fun l => blank l = false) lines ->
    let out := fold_left header_step lines (secs, cur) in
    fst out <> [] \/ blank (sec_content (snd out)) = false.
Proof.
  induction lines as [|l lines IH]; intros secs cur H; cbn [fold_left].
  - destruct H as [H | [H | H]]; [now left | now right | inversion H].
  - destruct (header_step (secs, cur) l) as [secs1 cur1] eqn:E1.
    unfold header_step in E1. apply IH.
    destruct (is_header l) eqn:E; injection E1 as <- <-.
    + right. left. cbn [sec_content]. rewrite blank_append.
      now rewrite (header_not_blank l E).
    + destruct H as [H | [H | H]]; [now left | |].
      * right. left. cbn [sec_content]. rewrite blank_append, H. reflexivity.
      * inversion H as [? ? Hl | ? ? Hls]; subst.
        -- right. left. cbn [sec_content]. rewrite !blank_append, Hl.
           now rewrite andb_false_r.
        -- right. now right.
Qed.

(** The sections of a document that is not blank: at least one, none of
    them blank, each under an empty title or the title of a header line. *)
Lemma sections_of_text (doc : string) :
  blank doc = false ->
  splitByMarkdownHeaders doc <> []
  /\ forall s, In s (splitByMarkdownHeaders doc) ->
       blank (sec_content s) = false /\ title_from (split_char LF doc) s.
Proof.
  intros Hdoc. rewrite splitByMarkdownHeaders_cases. cbv zeta.
  pose proof (fold_sections_inv (split_char LF doc) (split_char LF doc)
                (incl_refl _) [] {| title := ""; sec_content := "" |}
                ltac:(intros s []) ltac:(now left)) as [Hsecs Hcur].
  pose proof (fold_keeps_text (split_char LF doc) []
                {| title := ""; sec_content := "" |}
                ltac:(right; right; now apply split_char_not_blank)) as Hkeep.
  cbv zeta in Hsecs, Hcur, Hkeep.
  destruct (fold_left header_step _ _) as [secs cur]. cbn [fst snd] in *.
  destruct (blank (sec_content cur)) eqn:Eb.
  - destruct Hkeep as [Hne | Hne]; [|discriminate Hne].
    destruct secs as [|s0 secs]; [now elim Hne|]. split; [discriminate | exact Hsecs].
  - destruct (secs ++ [cur])%list as [|s0 l] eqn:El;
      [now destruct secs|]. rewrite <- El. split; [rewrite El; discriminate|].
    intros s Hs. apply in_app_or in Hs. destruct Hs as [Hs | [<- | []]].
    + now apply Hsecs.
    + now split.
Qed.

(** A blank document has the one section titled "Content". *)
Lemma sections_of_blank (doc : string) :
  blank doc = true ->
  splitByMarkdownHeaders doc = [{| title := "Content"; sec_content := doc |}].
Proof.
  intros Hdoc. rewrite splitByMarkdownHeaders_cases. cbv zeta.
  rewrite fold_no_headers.
  - cbn [fst snd sec_content append]. rewrite unlines_split, blank_append, Hdoc.
    reflexivity.
  - pose proof (split_char_forall is_space LF doc Hdoc) as Hlines.
    eapply Forall_impl; [|exact Hlines]. intros l Hl. cbv beta in Hl.
    destruct (is_header l) eqn:E; [|reflexivity].
    apply header_not_blank in E. unfold blank in E. congruence.
Qed.

End SectionFacts.

(** ** Chunks of a document *)

Section DocumentFacts.
Import JS ContextProcessor Notions Samples.

Lemma process_sections_In (rnd : uuid_source) (secs : list MdSection) :
  forall n c,
    In c (fst (process_sections rnd secs n)) ->
    exists sec m, In sec secs /\ In c (fst (createChunksFromSection rnd sec m)).
Proof.
  induction secs as [|sec secs IH]; intros n c Hc; [contradiction|].
  cbn [process_sections] in Hc.
  destruct (createChunksFromSection rnd sec n) as [cs n1] eqn:E1.
  destruct (process_sections rnd secs n1) as [cs' n2] eqn:E2.
  cbn [fst] in Hc. apply in_app_or in Hc. destruct Hc as [Hc | Hc].
  - exists sec, n. split; [now left | now rewrite E1].
  - destruct (IH n1 c) as (sec' & m & Hsec & Hin); [now rewrite E2|].
    exists sec', m. split; [now right | exact Hin].
Qed.

Lemma process_sections_ids (rnd : uuid_source) (secs : list MdSection) :
  forall n,
    snd (process_sections rnd secs n) = n + length (fst (process_sections rnd secs n))
    /\ map id (fst (process_sections rnd secs n))
       = map rnd (seq n (length (fst (process_sections rnd secs n)))).
Proof.
  induction secs as [|sec secs IH]; intros n; cbn [process_sections].
  - cbn. split; [lia | reflexivity].
  - unfold createChunksFromSection.
    destruct (chunk_loop_ids rnd (title sec) (split_ws (sec_content sec))
                CONTEXT_CONSTANTS.CHUNK_SIZE CONTEXT_CONSTANTS.CHUNK_OVERLAP
                (length (split_ws (sec_content sec))) 0 n) as [H1 H1'].
    destruct (chunk_loop _ rnd _ _ _ _ 0 n) as [cs n1]. cbn [fst snd] in H1, H1'.
    destruct (IH n1) as [H2 H2'].
    destruct (process_sections rnd secs n1) as [cs' n2]. cbn [fst snd] in *.
    rewrite length_app, map_app, seq_app, map_app, H1', H2'. subst n1.
    split; [lia | reflexivity].
Qed.

Lemma process_sections_emits (rnd : uuid_source) (secs : list MdSection)
    (sec : MdSection) :
  In sec secs ->
  (forall m, fst (createChunksFromSection rnd sec m) <> []) ->
  forall n, fst (process_sections rnd secs n) <> [].
Proof.
  intros Hsec Hne. induction secs as [|s secs IH]; [contradiction|]. intros n.
  cbn [process_sections].
  destruct (createChunksFromSection rnd s n) as [cs n1] eqn:E1.
  destruct (process_sections rnd secs n1) as [cs' n2] eqn:E2. cbn [fst].
  destruct Hsec as [-> | Hsec].
  - specialize (Hne n). rewrite E1 in Hne. cbn [fst] in Hne.
    destruct cs; [now elim Hne | discriminate].
  - specialize (IH Hsec n1). rewrite E2 in IH. cbn [fst] in IH.
    destruct cs; [exact IH | discriminate].
Qed.

Lemma section_of_text_emits (rnd : uuid_source) (sec : MdSection) (m : nat) :
  blank (sec_content sec) = false ->
  fst (createChunksFromSection rnd sec m) <> [].
Proof.
  intros Hsec. unfold createChunksFromSection.
  pose proof (split_ws_not_blank _ Hsec) as Hex.
  apply Exists_exists in Hex. destruct Hex as (w & Hin & Hw).
  destruct (In_nth _ _ "" Hin) as (j & Hj & Ej).
  apply (chunk_loop_reaches_word rnd (title sec) (split_ws (sec_content sec))
           CONTEXT_CONSTANTS.CHUNK_SIZE CONTEXT_CONSTANTS.CHUNK_OVERLAP
           (length (split_ws (sec_content sec)))
           ltac:(unfold CONTEXT_CONSTANTS.CHUNK_SIZE,
                   CONTEXT_CONSTANTS.CHUNK_OVERLAP; lia)
           0 m j); try lia. now rewrite Ej.
Qed.

Lemma blank_section_emits_nothing (rnd : uuid_source) (sec : MdSection) (m : nat) :
  blank (sec_content sec) = true ->
  createChunksFromSection rnd sec m = ([], m).
Proof.
  intros Hsec. unfold createChunksFromSection.
  apply chunk_loop_blank. now apply split_ws_blank.
Qed.

(** Where a chunk of a document comes from. *)
Lemma chunk_origin (rnd : uuid_source) (doc : string) (n : nat) (c : ContextChunk) :
  In c (fst (processContextContent rnd doc n)) ->
  blank doc = false
  /\ exists sec j,
       In sec (splitByMarkdownHeaders doc)
       /\ title_from (split_char LF doc) sec
       /\ content c = window_text (split_ws (sec_content sec))
                        CONTEXT_CONSTANTS.CHUNK_SIZE j
       /\ content c <> ""
       /\ keywords c = extractKeywords (content c)
       /\ section c = (if is_empty (title sec) then None else Some (title sec))
       /\ relevanceScore c = None.
Proof.
  intros Hc. unfold processContextContent in Hc.
  destruct (blank doc) eqn:Hdoc.
  - exfalso. rewrite sections_of_blank in Hc by exact Hdoc.
    cbn [process_sections] in Hc.
    rewrite blank_section_emits_nothing in Hc by exact Hdoc. exact Hc.
  - split; [reflexivity|].
    destruct (process_sections_In _ _ _ _ Hc) as (sec & m & Hsec & Hin).
    destruct (sections_of_text doc Hdoc) as [_ Hall].
    destruct (Hall sec Hsec) as [_ Htitle].
    unfold createChunksFromSection in Hin.
    destruct (chunk_loop_emits _ _ _ _ _ _ _ _ _ Hin) as (j & H1 & H2 & H3 & H4 & H5).
    exists sec, j. repeat split; assumption.
Qed.

(** X9. A document without header lines is one section: under the empty
    title, holding the text and a closing line feed; or, when the text is
    blank, under the title "Content", holding the text.  No chunk of such
    a document carries a section label. *)
Theorem document_without_headers (rnd : uuid_source) (doc : string) (n : nat) :
  Forall (fun l => is_header l = false) (split_char LF doc) ->
  splitByMarkdownHeaders doc
  = [if blank doc then {| title := "Content"; sec_content := doc |}
     else {| title := ""; sec_content := doc ++ nl |}]
  /\ Forall (fun c => section c = None) (fst (processContextContent rnd doc n)).
Proof.
  intros Hno. split.
  - destruct (blank doc) eqn:Hdoc; [now apply sections_of_blank|].
    rewrite splitByMarkdownHeaders_cases. cbv zeta.
    rewrite fold_no_headers by exact Hno.
    cbn [fst snd sec_content title append]. rewrite unlines_split, blank_append, Hdoc.
    reflexivity.
  - apply Forall_forall. intros c Hc.
    destruct (chunk_origin rnd doc n c Hc)
      as (_ & sec & j & _ & Htitle & _ & _ & _ & Hsection & _).
    rewrite Hsection. destruct Htitle as [-> | (L & HL & Hhdr & _)]; [reflexivity|].
    rewrite Forall_forall in Hno. rewrite (Hno L HL) in Hhdr. discriminate Hhdr.
Qed.

Lemma document_without_headers_witness :
  splitByMarkdownHeaders "hello" = [{| title := ""; sec_content := "hello" ++ nl |}].
Proof.
  apply (proj1 (document_without_headers sample_uuids "hello" 0
                  ltac:(repeat constructor))).
Defined.



End DocumentFacts.

Section DocumentCountFacts.
Import JS ContextProcessor Notions Samples.

Lemma hash_run_injective (i j : nat) : hash_run i = hash_run j -> i = j.
Proof.
  revert j. induction i as [|i IH]; intros [|j] H; try reflexivity; try discriminate H.
  cbn [hash_run] in H. injection H as H. f_equal. now apply IH.
Qed.

Lemma NoDup_map_injective {A B : Type} (f : A -> B) (l : list A) :
  (forall x y, f x = f y -> x = y) -> NoDup l -> NoDup (map f l).
Proof.
  intros Hinj. induction 1 as [|x l Hx _ IH]; cbn [map]; constructor; [|exact IH].
  intros Hin. apply in_map_iff in Hin. destruct Hin as (y & E & Hy).
  apply Hinj in E. now subst y.
Qed.

(** X11. Processing a document draws one id per chunk, in document order:
    the chunks carry the next ids of the random source and the count of
    draws grows by the number of chunks; so when the source never repeats
    an id, no two chunks share one. *)
Theorem chunk_ids_in_order (rnd : uuid_source) (doc : string) (n : nat) :
  let chunks := fst (processContextContent rnd doc n) in
  snd (processContextContent rnd doc n) = n + length chunks
  /\ map id chunks = map rnd (seq n (length chunks))
  /\ ((forall i j, rnd i = rnd j -> i = j) -> NoDup (map id chunks)).
Proof.
  cbv zeta. unfold processContextContent.
  destruct (process_sections_ids rnd (splitByMarkdownHeaders doc) n) as [H1 H2].
  split; [exact H1|]. split; [exact H2|].
  intros Hinj. rewrite H2. apply NoDup_map_injective; [exact Hinj|].
  apply seq_NoDup.
Qed.

Lemma chunk_ids_in_order_witness :
  NoDup (map id (fst (processContextContent distinct_uuids scenarioA_document 0))).
Proof.
  apply (proj2 (proj2 (chunk_ids_in_order distinct_uuids scenarioA_document 0))).
  exact hash_run_injective.
Defined.

Lemma processContextContent_nil_iff (rnd : uuid_source) (doc : string) (n : nat) :
  fst (processContextContent rnd doc n) = [] <-> trim doc = "".
Proof.
  rewrite <- trim_blank. split.
  - intros Hnil. destruct (blank doc) eqn:Hdoc; [reflexivity|]. exfalso.
    destruct (sections_of_text doc Hdoc) as [Hne Hall].
    destruct (splitByMarkdownHeaders doc) as [|sec secs] eqn:Es; [now elim Hne|].
    destruct (Hall sec ltac:(now left)) as [Hsec _].
    apply (process_sections_emits rnd (sec :: secs) sec ltac:(now left)
             (fun m => section_of_text_emits rnd sec m Hsec) n).
    unfold processContextContent in Hnil. now rewrite Es in Hnil.
  - intros Hdoc. unfold processContextContent.
    rewrite sections_of_blank by exact Hdoc. cbn [process_sections].
    now rewrite blank_section_emits_nothing.
Qed.

(** X12. A document yields no chunk exactly when its text is blank (empty
    after trimming); any other document yields at least one. *)
Theorem no_chunks_iff_blank (rnd : uuid_source) (doc : string) (n : nat) :
  fst (processContextContent rnd doc n) = [] <-> trim doc = "".
Proof. apply processContextContent_nil_iff. Qed.

Lemma no_chunks_iff_blank_witness :
  fst (processContextContent sample_uuids ("  " ++ nl) 0) = []
  /\ fst (processContextContent sample_uuids "hello" 0) <> [].
Proof.
  split.
  - apply (proj2 (no_chunks_iff_blank sample_uuids ("  " ++ nl) 0)). reflexivity.
  - intros H. apply (proj1 (no_chunks_iff_blank sample_uuids "hello" 0)) in H.
    discriminate H.
Defined.

(** X13. Every chunk's section label is absent or is the trimmed title of
    a header line of the document. *)
Theorem chunk_labels_from_headers (rnd : uuid_source) (doc : string) (n : nat)
    (c : ContextChunk) :
  In c (fst (processContextContent rnd doc n)) ->
  section c = None
  \/ exists L, In L (split_char LF doc)
               /\ is_header L = true
               /\ section c = Some (header_title L).
Proof.
  intros Hc.
  destruct (chunk_origin rnd doc n c Hc)
    as (_ & sec & j & _ & Htitle & _ & _ & _ & Hsection & _).
  rewrite Hsection. destruct Htitle as [-> | (L & HL & Hhdr & ->)]; [now left|].
  destruct (is_empty (header_title L)); [now left|]. right. now exists L.
Qed.

Lemma chunk_labels_from_headers_witness :
  Some "About" = None
  \/ exists L, In L (split_char LF scenarioA_document)
               /\ is_header L = true
               /\ Some "About" = Some (header_title L).
Proof.
  apply (chunk_labels_from_headers sample_uuids scenarioA_document 0
           {| id := sample_uuids 0;
              content := "# About I like Rust and Go.";
              keywords := ["like"; "rust"];
              section := Some "About";
              relevanceScore := None |}).
  vm_compute. now left.
Defined.

End DocumentCountFacts.

(** ** How many chunks a section gives *)

Section CountFacts.
Import JS ContextProcessor Notions Samples.




End CountFacts.

(** ** File metadata *)

Section MetadataFacts.
Import JS ContextFileManager Notions Samples.

Lemma checkContextFileExists_run {S : Type} (fs : RNFS) (s : S) :
  checkContextFileExists fs s
  = (Ok match RNFS_exists fs with Ok b => b | Throw _ => false end, s).
Proof.
  unfold checkContextFileExists, try_catch, await, ret.
  now destruct (RNFS_exists fs).
Qed.

Lemma getFileMetadata_run {S : Type} (dir : string) (fs : RNFS) (s : S) :
  getFileMetadata dir fs s
  = (Ok match RNFS_exists fs, RNFS_stat fs with
        | Ok true, Ok stats =>
            Some {| metadata_size := stat_size stats;
                    metadata_lastModified := mtime stats;
                    metadata_path := contextFilePath dir |}
        | _, _ => None
        end, s).
Proof.
  unfold getFileMetadata, checkContextFileExists, try_catch, bind, await, ret.
  destruct (RNFS_exists fs) as [[|]|e]; cbn; try reflexivity.
  now destruct (RNFS_stat fs).
Qed.

(** X15. Neither the existence check nor [getFileMetadata] ever throws.
    The check answers [true] only when the file system said so; the
    metadata are [null] exactly when the file is absent or a call failed;
    and whenever [readContextFile] returns a document, the metadata carry
    that document's size and modification time and the path
    "<documents>/context.md". *)
Theorem getFileMetadata_fail_soft {S : Type} (dir : string) (fs : RNFS) (s : S) :
  exists (b : bool) (r : option FileMetadata),
    checkContextFileExists fs s = (Ok b, s)
    /\ (b = true <-> RNFS_exists fs = Ok true)
    /\ getFileMetadata dir fs s = (Ok r, s)
    /\ (r = None <-> RNFS_exists fs <> Ok true \/ exists e, RNFS_stat fs = Throw e)
    /\ (forall doc, readContextFile fs s = (Ok (Some doc), s) ->
          r = Some {| metadata_size := size doc;
                      metadata_lastModified := lastModified doc;
                      metadata_path := dir ++ "/context.md" |}).
Proof.
  eexists _, _. split; [apply checkContextFileExists_run|].
  split; [|split; [apply getFileMetadata_run|split]].
  - destruct (RNFS_exists fs) as [[|]|e]; split; intro H; try reflexivity;
      discriminate H.
  - destruct (RNFS_exists fs) as [[|]|e].
    + destruct (RNFS_stat fs) as [stats|e]; split.
      * intros H; discriminate H.
      * intros [H | (e & H)]; [now elim H | discriminate H].
      * intros _. right. now exists e.
      * reflexivity.
    + split; [intros _; left; intros H; discriminate H | reflexivity].
    + split; [intros _; left; intros H; discriminate H | reflexivity].
  - intros doc. rewrite readContextFile_run. unfold file_document.
    destruct (RNFS_exists fs) as [[|]|e]; try (intros H; discriminate H).
    destruct (RNFS_readFile fs) as [text|e]; try (intros H; discriminate H).
    destruct (RNFS_stat fs) as [stats|e]; try (intros H; discriminate H).
    intros H. injection H as <-. reflexivity.
Qed.

Lemma getFileMetadata_fail_soft_witness :
  fst (getFileMetadata "/docs" hello_file tt)
  = Ok (Some {| metadata_size := 5%N;
                metadata_lastModified := 1000%N;
                metadata_path := "/docs/context.md" |}).
Proof.
  destruct (getFileMetadata_fail_soft "/docs" hello_file tt)
    as (b & r & _ & _ & Hrun & _ & Hdoc).
  rewrite Hrun. cbn [fst]. f_equal.
  apply (Hdoc {| doc_content := "hello"; lastModified := 1000%N; size := 5%N;
                 chunks := []; isValid := true |}).
  reflexivity.
Defined.

End MetadataFacts.

(** ** The manager: refresh, cleanup, statistics *)

Section RefreshFacts.
Import JS MCPContextManager Notions Samples.

Lemma refreshed_chunks_of_text (env : Env) (st : State) :
  chunks_of_text (fst (refreshed env st)).
Proof.
  unfold chunks_of_text, refreshed.
  destruct (file_document (fs env)) as [d|]; [|intros doc H; discriminate H].
  destruct (ContextProcessor.processContextContent (rnd env) (doc_content d) (snd st))
    as [cs n'] eqn:E.
  intros doc H. cbn in H. injection H as <-. cbn [chunks doc_content].
  exists (rnd env), (snd st). now rewrite E.
Qed.

Lemma run_chunks_of_text (env : Env) (c : Call) (st : State) :
  chunks_of_text (fst st) -> chunks_of_text (fst (run env c st)).
Proof.
  intros Hst. destruct c; unfold run.
  - rewrite initialize_run. apply refreshed_chunks_of_text.
  - rewrite refreshContext_run. apply refreshed_chunks_of_text.
  - rewrite forceRefresh_run. apply refreshed_chunks_of_text.
  - rewrite getContextForQuery_run. cbn [snd]. unfold after_query.
    destruct (isInitialized (fst st)); [exact Hst | apply refreshed_chunks_of_text].
  - rewrite cleanup_run. intros doc H. discriminate H.
Qed.

Lemma reachable_chunks_of_text (st : State) :
  reachable st -> chunks_of_text (fst st).
Proof.
  induction 1 as [n | env c st _ IH].
  - intros doc H. discriminate H.
  - now apply run_chunks_of_text.
Qed.

Lemma refreshed_available (env : Env) (st : State) :
  isContextAvailable (fst (refreshed env st)) = true <-> usable_file (fs env).
Proof.
  unfold refreshed, file_document, usable_file.
  destruct (RNFS_exists (fs env)) as [[|]|e];
    try (cbn; split; [discriminate | intros (? & ? & H & _); discriminate H]).
  destruct (RNFS_readFile (fs env)) as [text|e];
    try (cbn; split; [discriminate | intros (? & ? & _ & H & _); discriminate H]).
  destruct (RNFS_stat (fs env)) as [stats|e];
    try (cbn; split; [discriminate | intros (? & ? & _ & _ & H & _); discriminate H]).
  cbn [doc_content isValid lastModified size].
  pose proof (processContextContent_nil_iff (rnd env) text (snd st)) as Hblank.
  destruct (ContextProcessor.processContextContent (rnd env) text (snd st))
    as [cs n']. cbn [fst] in Hblank.
  unfold isContextAvailable. cbn [fst contextDocument isValid chunks].
  rewrite andb_true_iff, positive_length_nonempty, Nat.ltb_lt. split.
  - intros [Hne _]. now exists text, stats.
  - intros (text' & stats' & _ & E & _ & Hne). injection E as <-.
    split; [exact Hne|]. destruct cs; [|cbn; lia].
    elim Hne. now apply Hblank.
Qed.

Lemma available_text_cached_aux (st : State) :
  reachable st ->
  forall doc, contextDocument (fst st) = Some doc ->
    (chunks doc <> [] <-> trim (doc_content doc) <> "")
    /\ (isValid doc = true <-> chunks doc <> []).
Proof.
  intros Hreach doc Hd.
  destruct (reachable_chunks_of_text st Hreach doc Hd) as (rnd & n & E).
  pose proof (processContextContent_nil_iff rnd (doc_content doc) n) as Hb.
  rewrite <- E in Hb.
  assert (H1 : chunks doc <> [] <-> trim (doc_content doc) <> "") by tauto.
  split; [exact H1|].
  rewrite (reachable_valid_flag st Hreach doc Hd), positive_length_nonempty. tauto.
Qed.

(** X16. In every state the manager can reach, the cached document has
    chunks exactly when its text is not blank, which is when it is
    flagged valid; so the context is available exactly when a document
    with a text that is not blank is cached. *)
Theorem available_iff_text_cached (st : State) :
  reachable st ->
  (forall doc, contextDocument (fst st) = Some doc ->
     (chunks doc <> [] <-> trim (doc_content doc) <> "")
     /\ (isValid doc = true <-> chunks doc <> []))
  /\ (isContextAvailable (fst st) = true <->
      exists doc, contextDocument (fst st) = Some doc
                  /\ trim (doc_content doc) <> "").
Proof.
  intros Hreach.
  pose proof (available_text_cached_aux st Hreach) as Hdoc.
  split; [exact Hdoc|]. rewrite isContextAvailable_true. split.
  - intros (doc & Hd & _ & Hc). exists doc. split; [exact Hd|].
    now apply (Hdoc doc Hd).
  - intros (doc & Hd & Ht). exists doc. destruct (Hdoc doc Hd) as [H1 H2].
    split; [exact Hd|]. split; [apply H2|]; now apply H1.
Qed.

Lemma available_iff_text_cached_witness :
  isContextAvailable (fst (run hello_env CallForceRefresh (initial, 0))) = true.
Proof.
  apply (proj2 (available_iff_text_cached _
                  (reachable_call hello_env CallForceRefresh _ (reachable_initial 0)))).
  eexists. split; [reflexivity | discriminate].
Defined.

(** X17. [forceRefresh] never throws; it leaves the state [refreshContext]
    leaves, keeps the initialized flag, and returns whether the context is
    available then: [true] exactly when the file exists, could be read and
    examined, and holds a text that is not blank. *)
Theorem forceRefresh_outcome (env : Env) (st : State) :
  exists (b : bool) (st' : State),
    forceRefresh env st = (Ok b, st')
    /\ refreshContext env st = (Ok tt, st')
    /\ b = isContextAvailable (fst st')
    /\ isInitialized (fst st') = isInitialized (fst st)
    /\ (b = true <-> usable_file (fs env)).
Proof.
  exists (isContextAvailable (fst (refreshed env st))), (refreshed env st).
  split; [apply forceRefresh_run|]. split; [apply refreshContext_run|].
  split; [reflexivity|]. split; [|apply refreshed_available].
  unfold refreshed. destruct (file_document (fs env)); [|reflexivity].
  now destruct (ContextProcessor.processContextContent _ _ _).
Qed.

End RefreshFacts.

Section CleanupFacts.
Import JS MCPContextManager Notions Samples.

Lemma forceRefresh_outcome_witness :
  fst (forceRefresh hello_env (initial, 0)) = Ok true
  /\ fst (forceRefresh {| fs := blank_file; now := 2000%N; rnd := sample_uuids |}
            (snd (forceRefresh hello_env (initial, 0)))) = Ok false.
Proof.
  split.
  - destruct (forceRefresh_outcome hello_env (initial, 0))
      as (b & st' & Hrun & _ & _ & _ & Hb).
    rewrite Hrun. cbn [fst]. f_equal. apply Hb.
    exists "hello", {| mtime := 1000%N; stat_size := 5%N |}.
    repeat split. discriminate.
  - destruct (forceRefresh_outcome
                {| fs := blank_file; now := 2000%N; rnd := sample_uuids |}
                (snd (forceRefresh hello_env (initial, 0))))
      as (b & st' & Hrun & _ & _ & _ & Hb).
    rewrite Hrun. cbn [fst]. f_equal. apply not_true_is_false. intros Htrue.
    apply Hb in Htrue. destruct Htrue as (text & stats & _ & Hread & _ & Hne).
    injection Hread as <-. now apply Hne.
Defined.

(** X18. [cleanup] never throws.  It drops the document and clears the
    initialized flag, keeps the time of the last refresh, and a second
    [cleanup] changes nothing.  The next query initialises again: it reads
    the file and answers with a prompt exactly when the file holds a text
    that is not blank. *)
Theorem cleanup_resets (st : State) :
  exists st' : State,
    cleanup st = (Ok tt, st')
    /\ contextDocument (fst st') = None
    /\ isInitialized (fst st') = false
    /\ lastFileCheck (fst st') = lastFileCheck (fst st)
    /\ isContextAvailable (fst st') = false
    /\ cleanup st' = (Ok tt, st')
    /\ forall (env : Env) (q : string),
         exists r, getContextForQuery env q st'
                   = (Ok r, snd (initialize env st'))
                   /\ (r <> None <-> usable_file (fs env)).
Proof.
  eexists. split; [apply cleanup_run|]. cbn [fst contextDocument isInitialized lastFileCheck].
  repeat split.
  intros env q. rewrite getContextForQuery_run, initialize_run.
  unfold after_query. cbn [fst isInitialized snd].
  eexists. split; [reflexivity|].
  set (st1 := refreshed env _).
  pose proof (refreshed_available env
                ({| contextDocument := None;
                    lastFileCheck := lastFileCheck (fst st);
                    isInitialized := false |}, snd st)) as Hav.
  fold st1 in Hav. rewrite <- Hav.
  unfold query_result. cbn [flag_set fst contextDocument].
  change (isContextAvailable
            {| contextDocument := contextDocument (fst st1);
               lastFileCheck := lastFileCheck (fst st1);
               isInitialized := true |})
    with (isContextAvailable (fst st1)).
  unfold isContextAvailable.
  destruct (contextDocument (fst st1)) as [doc|].
  - destruct (isValid doc && (0 <? length (chunks doc))); split; intro H;
      try reflexivity; try discriminate; now elim H.
  - split; intro H; [now elim H | discriminate H].
Qed.

Lemma cleanup_resets_witness :
  exists r,
    fst (getContextForQuery hello_env "hello"
           (snd (cleanup (snd (initialize absent_env (initial, 0)))))) = Ok r
    /\ r <> None.
Proof.
  destruct (cleanup_resets (snd (initialize absent_env (initial, 0))))
    as (st' & Hrun & _ & _ & _ & _ & _ & Hquery).
  rewrite Hrun. cbn [snd].
  destruct (Hquery hello_env "hello") as (r & Hr & Hiff).
  exists r. rewrite Hr. split; [reflexivity|]. apply Hiff.
  exists "hello", {| mtime := 1000%N; stat_size := 5%N |}.
  repeat split. discriminate.
Defined.

(** X19. Once the manager is initialised and the context is unavailable,
    every query answers [null] and leaves the state as it is, whatever the
    file system holds by then: only a refresh, not a query, loads a file
    that appeared later. *)
Theorem no_reload_on_query (env : Env) (q : string) (st : State) :
  isInitialized (fst st) = true ->
  isContextAvailable (fst st) = false ->
  getContextForQuery env q st = (Ok None, st).
Proof.
  intros Hinit Hav. rewrite getContextForQuery_run. unfold after_query.
  rewrite Hinit. unfold query_result. rewrite Hav.
  now destruct (contextDocument (fst st)).
Qed.

Lemma no_reload_on_query_witness :
  getContextForQuery hello_env "hello" (snd (initialize absent_env (initial, 0)))
  = (Ok None, snd (initialize absent_env (initial, 0))).
Proof.
  apply no_reload_on_query; reflexivity.
Defined.

End CleanupFacts.

Section StatsFacts.
Import JS MCPContextManager Notions Samples.

Lemma getContextMetadata_run (dir : string) (env : Env) (st : State) :
  exists file,
    getContextMetadata dir env st
    = (Ok (Some {| meta_file := file;
                   meta_chunksCount :=
                     match contextDocument (fst st) with
                     | Some doc => length (chunks doc)
                     | None => 0
                     end;
                   meta_lastProcessed := lastFileCheck (fst st);
                   meta_isAvailable := isContextAvailable (fst st) |}), st)
    /\ ContextFileManager.getFileMetadata dir (fs env) st = (Ok file, st).
Proof.
  eexists. split; [|apply getFileMetadata_run].
  unfold getContextMetadata. apply try_catch_returns.
  erewrite bind_run by apply getFileMetadata_run.
  erewrite bind_run by reflexivity. reflexivity.
Qed.

(** X20. Neither [getContextStats] nor [getContextMetadata] ever throws,
    and neither changes the state; the metadata are never [null].  Both
    report the availability [isContextAvailable] gives.  The statistics
    count at least one chunk when the context is available and report
    zeros when it is not; and in every state the manager can reach the two
    chunk counts agree. *)
Theorem stats_and_metadata_agree (dir : string) (env : Env) (st : State) :
  exists (stats : ContextStats) (meta : ContextMetadata),
    getContextStats (fst st) = Ok stats
    /\ getContextMetadata dir env st = (Ok (Some meta), st)
    /\ stats_available stats = isContextAvailable (fst st)
    /\ meta_isAvailable meta = isContextAvailable (fst st)
    /\ (stats_available stats = true -> 1 <= stats_chunksCount stats)
    /\ (stats_available stats = false ->
        stats_chunksCount stats = 0 /\ stats_fileSize stats = 0%N
        /\ stats_lastModified stats = None)
    /\ (reachable st -> meta_chunksCount meta = stats_chunksCount stats).
Proof.
  destruct (getContextMetadata_run dir env st) as (file & Hmeta & _).
  unfold getContextStats.
  destruct (isContextAvailable (fst st)) eqn:Hav; cbn [negb].
  - pose proof Hav as Hav'. apply isContextAvailable_true in Hav'.
    destruct Hav' as (doc & Hd & Hv & Hc). rewrite Hd.
    eexists _, _. split; [reflexivity|]. split; [exact Hmeta|].
    cbn [stats_available stats_chunksCount meta_isAvailable meta_chunksCount].
    rewrite Hd. repeat split; try discriminate.
    intros _. destruct (chunks doc); [now elim Hc | cbn; lia].
  - eexists _, _. split; [reflexivity|]. split; [exact Hmeta|].
    cbn [stats_available stats_chunksCount stats_fileSize stats_lastModified
         meta_isAvailable meta_chunksCount].
    repeat split; try discriminate.
    intros Hreach. destruct (contextDocument (fst st)) as [doc|] eqn:Hd;
      [|reflexivity].
    destruct (available_text_cached_aux st Hreach doc Hd) as [_ Hvalid].
    unfold isContextAvailable in Hav. rewrite Hd in Hav.
    destruct (chunks doc) as [|c cs] eqn:Ec; [reflexivity|]. exfalso.
    assert (Hv : isValid doc = true) by (apply Hvalid; discriminate).
    rewrite Hv in Hav. discriminate Hav.
Qed.

End StatsFacts.

Section AnswerFacts.
Import JS ContextProcessor MCPContextManager Notions Samples.

Lemma stats_and_metadata_agree_witness :
  exists stats meta,
    getContextStats (fst (run hello_env CallInitialize (initial, 0))) = Ok stats
    /\ fst (getContextMetadata "/docs" hello_env
              (run hello_env CallInitialize (initial, 0))) = Ok (Some meta)
    /\ 1 <= stats_chunksCount stats
    /\ meta_chunksCount meta = stats_chunksCount stats.
Proof.
  destruct (stats_and_metadata_agree "/docs" hello_env
              (run hello_env CallInitialize (initial, 0)))
    as (stats & meta & Hs & Hm & Hav & _ & Hcount & _ & Hagree).
  exists stats, meta. rewrite Hm. repeat split; try assumption.
  - apply Hcount. rewrite Hav. reflexivity.
  - apply Hagree. apply reachable_call, reachable_initial.
Defined.

Lemma prompt_holds_chunk (q : string) (sel : list ContextChunk) (r : ContextChunk) :
  In r sel -> exists pre post, buildContextPrompt q sel = pre ++ content r ++ post.
Proof.
  intros Hin.
  assert (Hr : In (render_chunk r) (map render_chunk sel)) by now apply in_map.
  destruct (join_contains (nl ++ nl) _ _ Hr) as (pre & post & E).
  destruct (render_chunk_contains r) as (header & Eh & _).
  exists (preamble ++ pre ++ header), (post ++ closing).
  unfold buildContextPrompt. destruct sel as [|c0 sel]; [contradiction|].
  cbn [length Nat.eqb]. rewrite E, Eh. now rewrite !append_assoc.
Qed.

(** X21. When a query is answered with a prompt, that prompt is built from
    between 1 and 5 chunks selected from the cached document: it begins
    with the "[CONTEXT ACTIVE]" preamble, and every selected chunk is a
    chunk of the document, with the same id and text, whose text occurs in
    the prompt. *)
Theorem answer_from_cached_chunks (env : Env) (q : string) (st : State)
    (prompt : string) :
  fst (getContextForQuery env q st) = Ok (Some prompt) ->
  exists doc sel tail,
    contextDocument (fst (snd (getContextForQuery env q st))) = Some doc
    /\ sel = extractRelevantChunks q (chunks doc)
    /\ prompt = buildContextPrompt q sel
    /\ prompt = preamble ++ tail
    /\ 1 <= length sel <= 5
    /\ forall r, In r sel ->
         exists c, In c (chunks doc)
                   /\ id r = id c /\ content r = content c
                   /\ exists pre post, prompt = pre ++ content c ++ post.
Proof.
  rewrite getContextForQuery_run. cbn [fst snd]. unfold query_result.
  destruct (contextDocument (fst (after_query env st))) as [doc|] eqn:Hd;
    [|discriminate].
  destruct (isContextAvailable (fst (after_query env st))) eqn:Hav; [|discriminate].
  intros H. injection H as <-.
  apply isContextAvailable_true in Hav. destruct Hav as (doc' & Hd' & _ & Hc).
  rewrite Hd in Hd'. injection Hd' as <-.
  set (sel := extractRelevantChunks q (chunks doc)).
  pose proof (extractRelevantChunks_nonempty q _ Hc) as Hne. fold sel in Hne.
  assert (Hlen : 1 <= length sel <= 5).
  { split; [destruct sel; [now elim Hne | cbn; lia]|].
    unfold sel, extractRelevantChunks, fallbackSelection, thresholdSelection.
    destruct (takes_fallback _); rewrite slice_from_zero, length_firstn;
      unfold CONTEXT_CONSTANTS.MAX_CHUNKS_PER_QUERY; lia. }
  exists doc, sel,
    (join (nl ++ nl) (map render_chunk sel) ++ closing).
  repeat split; try lia.
  - unfold buildContextPrompt. destruct sel; [now elim Hne | reflexivity].
  - intros r Hr. pose proof Hr as Hr'. apply selection_from_scored in Hr'.
    unfold scoredChunks in Hr'. apply in_map_iff in Hr'.
    destruct Hr' as (c & <- & Hcin). exists c. repeat split; [exact Hcin|].
    now apply (prompt_holds_chunk q sel _ Hr).
Qed.

Lemma answer_from_cached_chunks_witness :
  exists prompt tail,
    fst (getContextForQuery hello_env "hello" (initial, 0)) = Ok (Some prompt)
    /\ prompt = preamble ++ tail.
Proof.
  eexists. 
  destruct (answer_from_cached_chunks hello_env "hello" (initial, 0) _ eq_refl)
    as (doc & sel & tail & _ & _ & _ & Htail & _).
  exists tail. split; [reflexivity | exact Htail].
Defined.

End AnswerFacts.

(** ** No word is lost *)

Section CoverageFacts.
Import JS ContextProcessor Notions Samples.

Lemma relevance_threshold_boundary_witness :
  length (extractKeywords twenty_word_query) = 20
  /\ commonKeywords (extractKeywords twenty_word_query) tango_chunk = ["tango"]
  /\ Qltb threshold (calculateRelevanceScore twenty_word_query tango_chunk) = false.
Proof.
  split; [reflexivity|]. split; [reflexivity|].
  apply not_true_is_false. intros H.
  apply (proj1 (relevance_threshold_boundary twenty_word_query tango_chunk)) in H.
  destruct H as [_ H]. apply H. split; reflexivity.
Defined.

(** A word inside a text stays inside the trimmed text. *)
Lemma trim_keeps_word (pre w post : string) :
  word_ok w -> exists pre' post', trim (pre ++ w ++ post) = pre' ++ w ++ post'.
Proof.
  intros Hw. destruct (word_ok_head w Hw) as (c & r & Ew & Hc).
  destruct (trimStart_keeps_suffix pre (w ++ post) c (r ++ post)
              ltac:(now rewrite Ew) Hc) as (x & Hx).
  unfold trim. rewrite Hx, <- append_assoc.
  assert (Hfix : trimEnd (x ++ w) = x ++ w).
  { apply trimEnd_append_fixed; [apply Hw | apply trimEnd_no_space, Hw]. }
  assert (Hne : x ++ w <> "").
  { rewrite Ew. destruct x; discriminate. }
  destruct (trimEnd_keeps_prefix (x ++ w) post Hne Hfix) as (y & Hy).
  exists x, y. rewrite Hy. apply append_assoc.
Qed.

Lemma chunk_loop_covers (rnd : uuid_source) (t : string) (words : list string)
    (size ov : nat) (fuel : nat) :
  ov < size ->
  forall i n j,
    length words - i <= fuel ->
    i <= j -> j < length words -> word_ok (nth j words "") ->
    exists c i',
      In c (fst (chunk_loop fuel rnd t words size ov i n))
      /\ content c = window_text words size i'
      /\ i' <= j < i' + size.
Proof.
  intros Hstep. induction fuel as [|fuel IH]; intros i n j Hfuel Hij Hj Hw; [lia|].
  cbn [chunk_loop]. destruct (i <? length words) eqn:Ei;
    [|apply Nat.ltb_ge in Ei; lia].
  fold (window_text words size i).
  destruct (Nat.lt_ge_cases j (i + size)) as [Hin | Hout].
  - assert (Hne : window_text words size i <> "").
    { unfold window_text. rewrite slice_window.
      destruct (word_ok_head _ Hw) as (c & r & E & Hc).
      assert (Hmem : In (nth j words "") (firstn size (skipn i words)))
        by (apply nth_in_window; lia).
      destruct (join_contains " " _ _ Hmem) as (pre & post & ->).
      rewrite E. cbn [append]. now apply trim_not_empty. }
    apply positive_length_nonempty in Hne. rewrite Hne.
    destruct (chunk_loop fuel rnd t words size ov (i + (size - ov)) (S n))
      as [rest n'].
    eexists _, i. split; [left; reflexivity|]. cbn [content]. split; [reflexivity | lia].
  - destruct (IH (i + (size - ov)) n j ltac:(lia) ltac:(lia) Hj Hw)
      as (c & i' & Hc & Hrest) .
    destruct (0 <? String.length (window_text words size i)).
    + destruct (IH (i + (size - ov)) (S n) j ltac:(lia) ltac:(lia) Hj Hw)
        as (c1 & i1 & Hc1 & Hrest1).
      destruct (chunk_loop fuel rnd t words size ov (i + (size - ov)) (S n))
        as [rest n'].
      exists c1, i1. split; [right; exact Hc1 | exact Hrest1].
    + exists c, i'. split; [exact Hc | exact Hrest].
Qed.

(** X22. Chunking a section loses no word: every piece of the section's
    text that is not empty lies in the window of some chunk of the
    section and occurs in that chunk's text. *)
Theorem section_words_covered (rnd : uuid_source) (sec : MdSection) (n : nat)
    (w : string) :
  In w (split_ws (sec_content sec)) -> w <> "" ->
  exists c pre post,
    In c (fst (createChunksFromSection rnd sec n))
    /\ content c = pre ++ w ++ post.
Proof.
  intros Hin Hne. set (words := split_ws (sec_content sec)) in *.
  assert (Hw : word_ok w).
  { split; [exact Hne|]. pose proof (split_ws_no_space (sec_content sec)) as Hns.
    rewrite Forall_forall in Hns. now apply Hns. }
  destruct (In_nth _ _ "" Hin) as (j & Hj & Ej).
  destruct (chunk_loop_covers rnd (title sec) words
              CONTEXT_CONSTANTS.CHUNK_SIZE CONTEXT_CONSTANTS.CHUNK_OVERLAP
              (length words)
              ltac:(unfold CONTEXT_CONSTANTS.CHUNK_SIZE,
                      CONTEXT_CONSTANTS.CHUNK_OVERLAP; lia)
              0 n j ltac:(lia) ltac:(lia) Hj ltac:(now rewrite Ej))
    as (c & i' & Hc & Htext & Hrange).
  assert (Hmem : In w (firstn CONTEXT_CONSTANTS.CHUNK_SIZE (skipn i' words))).
  { rewrite <- Ej. apply nth_in_window; lia. }
  destruct (join_contains " " _ _ Hmem) as (pre & post & E).
  destruct (trim_keeps_word pre w post Hw) as (pre' & post' & Htrim).
  exists c, pre', post'. split; [exact Hc|].
  rewrite Htext. unfold window_text. rewrite slice_window, E. exact Htrim.
Qed.

Lemma section_words_covered_witness :
  exists c pre post,
    In c (fst (createChunksFromSection sample_uuids
                 {| title := "About";
                    sec_content := "# About" ++ nl ++ "I like Rust and Go." ++ nl |} 0))
    /\ content c = pre ++ "Rust" ++ post.
Proof.
  apply section_words_covered.
  - vm_compute. tauto.
  - discriminate.
Defined.

End CoverageFacts.
